(** * Line-range inspection and history consistency of Python definitions

    A shallow embedding of [CodeInspector] (src/src/CodeInspector/code_inspector.py)
    and of [DocstringInspector] (src/docstringinspector/docstringinspector.py),
    whose range operations have the same bodies.

    Conventions.
    - Line numbers are Python [int]s, modelled as [Z].
    - A Python [str] is a [string]; a character stands for the code point of
      the same number, so the texts covered are those over code points below
      256.
    - A Python [dict] is an association list in insertion order.
    - An exception is the [Raise] outcome of the [result] type. *)

From Equations Require Import Equations.
From Stdlib Require Import List ZArith Lia Bool String Ascii Permutation.
Import ListNotations.
Open Scope string_scope.
Open Scope list_scope.
Open Scope Z_scope.
Set Warnings "-register-all".

(** ** The syntax tree of [ast.parse] *)

(** The three node classes that [_find_nodes] accepts. *)
Inductive def_kind : Type :=
| FunctionDef
| AsyncFunctionDef
| ClassDef.

(** A decorator expression: [ast.Name], [ast.Attribute], or anything else
    (a call, a subscript, ...), with the line it starts on. *)
Inductive decorator_shape : Type :=
| Name (id : string)
| Attribute (attr : string)
| OtherDecorator.

Record decorator : Type := mkDecorator {
  dec_lineno : Z;
  dec_shape : decorator_shape
}.

(** The value of an [ast.Expr] statement, as far as [_get_docstring_node]
    tells values apart.  On the interpreters that still have [ast.Str]
    (3.8 to 3.13) the legacy test accepts what the first test accepts. *)
Inductive expr_value : Type :=
| ConstantStr          (* ast.Constant whose value is a str *)
| ConstantOther        (* ast.Constant of another type: bytes, int, ... *)
| OtherValue.          (* any other expression *)

(** Nodes that can hold or be statements.  Expression nodes are left out of
    the tree: no expression contains a definition, and removing subtrees
    without definitions does not change the relative order in which a
    breadth-first walk meets the remaining nodes.

    [Other] stands for every remaining node that is a statement or holds
    statements (Module, If, For, While, With, Try, ExceptHandler, Match,
    match_case, Assign, Return, ...), with its statement children in field
    order. *)
Inductive node : Type :=
| Def (kind : def_kind) (name : string) (lineno end_lineno : Z)
      (decorator_list : list decorator) (body : list node)
| Expr (lineno end_lineno : Z) (value : expr_value)
| Other (lineno end_lineno : Z) (children : list node).

Definition node_lineno (n : node) : Z :=
  match n with
  | Def _ _ l _ _ _ => l
  | Expr l _ _ => l
  | Other l _ _ => l
  end.

Definition node_end_lineno (n : node) : Z :=
  match n with
  | Def _ _ _ e _ _ => e
  | Expr _ e _ => e
  | Other _ e _ => e
  end.

(** [node.decorator_list]; [hasattr(node, 'decorator_list')] holds exactly
    for definitions. *)
Definition node_decorator_list (n : node) : list decorator :=
  match n with
  | Def _ _ _ _ ds _ => ds
  | _ => []
  end.

(** [node.body] of a definition. *)
Definition node_body (n : node) : list node :=
  match n with
  | Def _ _ _ _ _ b => b
  | _ => []
  end.

(** [ast.iter_child_nodes], restricted to statement-holding children. *)
Definition iter_child_nodes (n : node) : list node :=
  match n with
  | Def _ _ _ _ _ b => b
  | Expr _ _ _ => []
  | Other _ _ cs => cs
  end.

(** Number of nodes of a tree, and of a queue of trees. *)
Fixpoint node_size (n : node) : nat :=
  let fix forest_size (ns : list node) : nat :=
    match ns with
    | [] => O
    | m :: ms => (node_size m + forest_size ms)%nat
    end in
  match n with
  | Def _ _ _ _ _ b => S (forest_size b)
  | Expr _ _ _ => 1%nat
  | Other _ _ cs => S (forest_size cs)
  end.

Fixpoint queue_size (q : list node) : nat :=
  match q with
  | [] => O
  | n :: q' => (node_size n + queue_size q')%nat
  end.

Lemma node_size_children (n : node) :
  node_size n = S (queue_size (iter_child_nodes n)).
Proof. destruct n; reflexivity. Qed.

Lemma queue_size_app (q r : list node) :
  queue_size (q ++ r) = (queue_size q + queue_size r)%nat.
Proof. induction q as [|n q IH]; simpl; [reflexivity | rewrite IH; lia]. Qed.

(** [ast.walk]'s loop over its deque:
<<
    todo = deque([node])
    while todo:
        node = todo.popleft()
        todo.extend(iter_child_nodes(node))
        yield node
>> *)
Equations? walk_queue (todo : list node) : list node by wf (queue_size todo) lt :=
  walk_queue [] := [];
  walk_queue (n :: todo') := n :: walk_queue (todo' ++ iter_child_nodes n).
Proof.
  rewrite queue_size_app, (node_size_children n). lia.
Qed.

Definition walk (tree : node) : list node := walk_queue [tree].

(** ** RangeLocator *)

Section RangeLocator.

(** [self.tree] *)
Variable tree : node.

(** [isinstance(node, (FunctionDef, AsyncFunctionDef, ClassDef)) and
    node.name == name] *)
Definition is_def_named (name : string) (n : node) : bool :=
  match n with
  | Def _ nm _ _ _ _ => String.eqb nm name
  | _ => false
  end.

Definition _find_nodes (name : string) : list node :=
  filter (is_def_named name) (walk tree).

(** [_get_node_range]: the first decorator's line when there is one. *)
Definition _get_node_range (n : node) : Z * Z :=
  let start_line :=
    match node_decorator_list n with
    | d :: _ => dec_lineno d
    | [] => node_lineno n
    end in
  (start_line, node_end_lineno n).

(** [_get_docstring_node]: the first body statement when it is an
    [ast.Expr] holding a string constant. *)
Definition _get_docstring_node (n : node) : option node :=
  match node_body n with
  | [] => None
  | first_node :: _ =>
      match first_node with
      | Expr _ _ ConstantStr => Some first_node
      | _ => None
      end
  end.

(** The loop over [node.decorator_list] that sets [is_overload]. *)
Definition dec_is_overload (d : decorator) : bool :=
  match dec_shape d with
  | Name id => String.eqb id "overload"
  | Attribute attr => String.eqb attr "overload"
  | OtherDecorator => false
  end.

Definition is_overload (n : node) : bool :=
  existsb dec_is_overload (node_decorator_list n).

Definition get_definition_lines (name : string) : list (Z * Z) :=
  map _get_node_range (_find_nodes name).

(** The body of the loop of [get_signature_lines] for one node. *)
Definition signature_range (n : node) : Z * Z :=
  let '(start, end_) := _get_node_range n in
  if is_overload n then (start, end_)
  else
    match node_body n with
    | first :: _ =>
        let sig_end := Z.max start (node_lineno first - 1) in
        let sig_end :=
          if node_lineno first =? node_lineno n then node_lineno n
          else sig_end in
        (start, sig_end)
    | [] => (start, end_)
    end.

Definition get_signature_lines (name : string) : list (Z * Z) :=
  map signature_range (_find_nodes name).

(** The body of the loop of [get_docstring_lines] for one node: zero or
    one range. *)
Definition docstring_ranges (n : node) : list (Z * Z) :=
  match _get_docstring_node n with
  | Some doc_node => [(node_lineno doc_node, node_end_lineno doc_node)]
  | None => []
  end.

Definition get_docstring_lines (name : string) : list (Z * Z) :=
  flat_map docstring_ranges (_find_nodes name).

(** The body of the loop of [get_implementation_without_docstring_lines]
    for one node: zero, one or two ranges. *)
Definition implementation_without_docstring_ranges (n : node) : list (Z * Z) :=
  let '(start, end_) := _get_node_range n in
  match _get_docstring_node n with
  | Some doc_node =>
      (if node_lineno doc_node >? start
       then [(start, node_lineno doc_node - 1)] else [])
      ++
      (if node_end_lineno doc_node <? end_
       then [(node_end_lineno doc_node + 1, end_)] else [])
  | None => [(start, end_)]
  end.

Definition get_implementation_without_docstring_lines (name : string)
  : list (Z * Z) :=
  flat_map implementation_without_docstring_ranges (_find_nodes name).

(** The body of the loop of [get_git_history_body] for one node: the
    ranges it appends before the call of [_run_git_log_L]. *)
Definition body_history_ranges (n : node) : list (Z * Z) :=
  if is_overload n || (match node_body n with [] => true | _ => false end)
  then []
  else
    let func_end := node_end_lineno n in
    let start_scan :=
      match _get_docstring_node n with
      | Some doc_node => node_end_lineno doc_node + 1
      | None =>
          match node_body n with
          | first :: _ => node_lineno first
          | [] => -1
          end
      end in
    if start_scan <=? func_end then [(start_scan, func_end)] else [].

Definition get_git_history_body_ranges (name : string) : list (Z * Z) :=
  flat_map body_history_ranges (_find_nodes name).

End RangeLocator.

(** ** Python strings *)

Definition code (c : ascii) : N := N_of_ascii c.

(** [str.isspace] of one character, which is also the class [\s] of [re]
    and the set [str.strip()] removes: tab to carriage return, the four
    separators 28 to 31, space, NEL (133) and no-break space (160). *)
Definition is_space (c : ascii) : bool :=
  let k := code c in
  ((9 <=? k) && (k <=? 13) || (28 <=? k) && (k <=? 32)
   || (k =? 133) || (k =? 160))%N.

(** The line boundaries of [str.splitlines]. *)
Definition is_linebreak (c : ascii) : bool :=
  let k := code c in
  ((10 <=? k) && (k <=? 13) || (28 <=? k) && (k <=? 30) || (k =? 133))%N.

Definition newline : ascii := ascii_of_N 10.
Definition carriage_return : ascii := ascii_of_N 13.
Definition nl : string := String newline EmptyString.

(** The class [.] of [re] without DOTALL: any character but a newline. *)
Definition is_dot (c : ascii) : bool := negb (Ascii.eqb c newline).

Fixpoint string_forall (p : ascii -> bool) (s : string) : bool :=
  match s with
  | EmptyString => true
  | String c s' => p c && string_forall p s'
  end.

Fixpoint lstrip (s : string) : string :=
  match s with
  | EmptyString => EmptyString
  | String c s' => if is_space c then lstrip s' else s
  end.

Fixpoint rstrip (s : string) : string :=
  match s with
  | EmptyString => EmptyString
  | String c s' =>
      match rstrip s' with
      | EmptyString => if is_space c then EmptyString else String c EmptyString
      | r => String c r
      end
  end.

(** [s.strip()] *)
Definition strip (s : string) : string := rstrip (lstrip s).

(** [sep.join(parts)] *)
Definition join (sep : string) (parts : list string) : string :=
  String.concat sep parts.

(** [s.splitlines()]: [cur] holds the characters of the line being read.
    A carriage return followed by a newline is one boundary; the text after
    the last boundary is a line only when it is not empty. *)
Fixpoint splitlines_from (cur : string) (s : string) : list string :=
  match s with
  | EmptyString =>
      match cur with
      | EmptyString => []
      | _ => [cur]
      end
  | String c s' =>
      if is_linebreak c then
        match s' with
        | String c' s'' =>
            if Ascii.eqb c carriage_return && Ascii.eqb c' newline
            then cur :: splitlines_from EmptyString s''
            else cur :: splitlines_from EmptyString s'
        | EmptyString => [cur]
        end
      else splitlines_from (cur ++ String c EmptyString)%string s'
  end.

Definition splitlines (s : string) : list string :=
  splitlines_from EmptyString s.

(** [str(n)] for an [int]. *)
Definition digit_char (d : Z) : ascii := ascii_of_N (48 + Z.to_N d).

Fixpoint str_of_digits (fuel : nat) (n : Z) (acc : string) : string :=
  match fuel with
  | O => acc
  | S fuel' =>
      let acc' := String (digit_char (n mod 10)) acc in
      if n / 10 =? 0 then acc' else str_of_digits fuel' (n / 10) acc'
  end.

Definition str_of_int (n : Z) : string :=
  if n <? 0
  then String "-" (str_of_digits (S (Z.to_nat (Z.log2 (- n)))) (- n) EmptyString)
  else str_of_digits (S (Z.to_nat (Z.log2 n))) n EmptyString.

(** ** Regular expressions of [parse_git_log_to_dict]

    [re.match] tries alternatives in a fixed order and keeps the first
    success.  The patterns are written with matchers in continuation
    style: a matcher consumes a prefix of the text and hands what it
    consumed and the rest to its continuation; a greedy [+] first tries to
    consume one more character and falls back to stopping when the longer
    attempt fails. *)

Section Matchers.

Context {R : Type}.

(** A literal prefix. *)
Fixpoint lit (l : string) (s : string) (k : string -> option R) : option R :=
  match l with
  | EmptyString => k s
  | String a l' =>
      match s with
      | String c s' => if Ascii.eqb a c then lit l' s' k else None
      | EmptyString => None
      end
  end.

(** One character of a class. *)
Definition one (p : ascii -> bool) (s : string) (k : string -> option R)
  : option R :=
  match s with
  | String c s' => if p c then k s' else None
  | EmptyString => None
  end.

(** [p+], greedy. *)
Fixpoint greedy_plus (p : ascii -> bool) (s : string)
         (k : string -> string -> option R) : option R :=
  match s with
  | String c s' =>
      if p c then
        match greedy_plus p s' (fun g r => k (String c g) r) with
        | Some x => Some x
        | None => k (String c EmptyString) s'
        end
      else None
  | EmptyString => None
  end.

(** [p{n}]: exactly [n] characters of a class. *)
Fixpoint exactly (n : nat) (p : ascii -> bool) (s : string)
         (k : string -> string -> option R) : option R :=
  match n with
  | O => k EmptyString s
  | S n' =>
      match s with
      | String c s' =>
          if p c then exactly n' p s' (fun g r => k (String c g) r) else None
      | EmptyString => None
      end
  end.

End Matchers.

(** The class [[0-9a-f]]. *)
Definition is_hex (c : ascii) : bool :=
  let k := code c in
  ((48 <=? k) && (k <=? 57) || (97 <=? k) && (k <=? 102))%N.

(** [^commit\s+([0-9a-f]{40})]: the captured hash. *)
Definition commit_pattern (line : string) : option string :=
  lit "commit" line (fun r =>
  greedy_plus is_space r (fun _ r =>
  exactly 40 is_hex r (fun h _ => Some h))).

(** [^Author:\s+(.+)\s+<(.+)>]: the two captured groups. *)
Definition author_pattern (line : string) : option (string * string) :=
  lit "Author:" line (fun r =>
  greedy_plus is_space r (fun _ r =>
  greedy_plus is_dot r (fun g1 r =>
  greedy_plus is_space r (fun _ r =>
  lit "<" r (fun r =>
  greedy_plus is_dot r (fun g2 r =>
  lit ">" r (fun _ => Some (g1, g2)))))))).

(** [^Date:\s+(.+)]: the captured group. *)
Definition date_pattern (line : string) : option string :=
  lit "Date:" line (fun r =>
  greedy_plus is_space r (fun _ r =>
  greedy_plus is_dot r (fun g _ => Some g))).

(** [^diff\s--git]: whether the line matches. *)
Definition diff_start_pattern (line : string) : bool :=
  match lit "diff" line (fun r =>
        one is_space r (fun r =>
        lit "--git" r (fun _ => Some tt))) with
  | Some _ => true
  | None => false
  end.


(** ** HistoryParser: [parse_git_log_to_dict] *)

(** [current_data] while its revision is being read: the message and the
    diff are lists of lines. *)
Record commit_data : Type := mkData {
  data_author_name : option string;
  data_author_email : option string;
  data_date : option string;
  data_message : list string;
  data_diff : list string
}.

(** A value of the result dictionary: the message and the diff are joined. *)
Record commit_record : Type := mkRecord {
  author_name : option string;
  author_email : option string;
  date : option string;
  message : string;
  diff : string
}.

(** The result dictionary, in insertion order. *)
Definition commits_dict : Type := list (string * commit_record).

(** [list(d)]: the keys in insertion order. *)
Definition keys (d : commits_dict) : list string := map fst d.

(** [d[key] = value]: an existing key keeps its place and takes the new
    value; a new key goes to the end. *)
Fixpoint dict_set (d : commits_dict) (key : string) (value : commit_record)
  : commits_dict :=
  match d with
  | [] => [(key, value)]
  | (k, v) :: d' =>
      if String.eqb k key then (k, value) :: d'
      else (k, v) :: dict_set d' key value
  end.

Inductive parser_state : Type := HEADER | MESSAGE | DIFF.

(** The local variables of the loop.  [current_data = None] stands for the
    empty dictionary the variable starts with. *)
Record parser : Type := mkParser {
  commits : commits_dict;
  current_hash : option string;
  current_data : option commit_data;
  state : parser_state
}.

Definition parser_init : parser :=
  mkParser [] None None HEADER.

(** The two assignments that join the message and the diff. *)
Definition finish_data (d : commit_data) : commit_record :=
  mkRecord (data_author_name d) (data_author_email d) (data_date d)
           (strip (join nl (data_message d)))
           (join nl (data_diff d)).

(** [if current_hash and current_data: ... commits[current_hash] =
    current_data]: a hash counts when it is not the empty string, the data
    when it is not the empty dictionary. *)
Definition flush (p : parser) : commits_dict :=
  match current_hash p, current_data p with
  | Some h, Some d =>
      if String.eqb h EmptyString then commits p
      else dict_set (commits p) h (finish_data d)
  | _, _ => commits p
  end.

Definition new_data : commit_data := mkData None None None [] [].

Definition set_author (d : commit_data) (name email : string) : commit_data :=
  mkData (Some name) (Some email) (data_date d) (data_message d) (data_diff d).

Definition set_date (d : commit_data) (dt : string) : commit_data :=
  mkData (data_author_name d) (data_author_email d) (Some dt)
         (data_message d) (data_diff d).

Definition append_message (d : commit_data) (line : string) : commit_data :=
  mkData (data_author_name d) (data_author_email d) (data_date d)
         (data_message d ++ [line]) (data_diff d).

Definition append_diff (d : commit_data) (line : string) : commit_data :=
  mkData (data_author_name d) (data_author_email d) (data_date d)
         (data_message d) (data_diff d ++ [line]).

(** One iteration of [for line in lines].  [current_hash] and
    [current_data] are assigned together, so past the test
    [current_hash is None] both are set. *)
Definition parse_line (p : parser) (line : string) : parser :=
  match commit_pattern line with
  | Some h =>
      mkParser (flush p) (Some h) (Some new_data) HEADER
  | None =>
      match current_hash p, current_data p with
      | Some _, Some d =>
          match state p with
          | HEADER =>
              match author_pattern line with
              | Some (g1, g2) =>
                  mkParser (commits p) (current_hash p)
                           (Some (set_author d (strip g1) (strip g2))) HEADER
              | None =>
                  match date_pattern line with
                  | Some g =>
                      mkParser (commits p) (current_hash p)
                               (Some (set_date d (strip g))) MESSAGE
                  | None => p
                  end
              end
          | MESSAGE =>
              if diff_start_pattern line
              then mkParser (commits p) (current_hash p)
                            (Some (append_diff d line)) DIFF
              else mkParser (commits p) (current_hash p)
                            (Some (append_message d line)) MESSAGE
          | DIFF =>
              mkParser (commits p) (current_hash p)
                       (Some (append_diff d line)) DIFF
          end
      | _, _ => p
      end
  end.

Definition parse_lines (p : parser) (lines : list string) : parser :=
  fold_left parse_line lines p.

Definition parse_git_log_to_dict (log_output : string) : commits_dict :=
  flush (parse_lines parser_init (splitlines log_output)).

(** ** Exceptions *)

Inductive exception : Type :=
| TypeError.

Inductive result (A : Type) : Type :=
| Ok (a : A)
| Raise (e : exception).
Arguments Ok {A} a.
Arguments Raise {A} e.

Definition bind {A B : Type} (m : result A) (f : A -> result B) : result B :=
  match m with
  | Ok a => f a
  | Raise e => Raise e
  end.

Notation "x <- m ;; k" := (bind m (fun x => k))
  (at level 61, m at next level, right associativity).
Notation "' pat <- m ;; k" := (bind m (fun x => match x with pat => k end))
  (at level 61, pat pattern, m at next level, right associativity).

(** ** [datetime] *)

(** A [datetime] is naive ([tzinfo] is [None]) or aware.  [wall] counts the
    microseconds of the wall-clock reading since 0001-01-01 00:00:00, and
    [utcoffset] the microseconds the reading is ahead of UTC. *)
Inductive datetime : Type :=
| Naive (wall : Z)
| Aware (wall : Z) (utcoffset : Z).

(** [datetime.min.replace(tzinfo=None)]: [datetime.min] is naive already. *)
Definition datetime_min : datetime := Naive 0.

Definition is_aware (d : datetime) : bool :=
  match d with
  | Naive _ => false
  | Aware _ _ => true
  end.

(** [a > b]: two naive values compare by their readings, two aware values
    by their instants, and a naive value against an aware one raises
    TypeError ("can't compare offset-naive and offset-aware datetimes"). *)
Definition datetime_gt (a b : datetime) : result bool :=
  match a, b with
  | Naive x, Naive y => Ok (x >? y)
  | Aware x ox, Aware y oy => Ok (x - ox >? y - oy)
  | _, _ => Raise TypeError
  end.

(** The comparison itself, for two values of the same kind. *)
Definition later (a b : datetime) : bool :=
  match a, b with
  | Naive x, Naive y => x >? y
  | Aware x ox, Aware y oy => x - ox >? y - oy
  | _, _ => false
  end.

(** ** HistoryClient and ConsistencyChecker *)

(** What [subprocess.run(cmd, capture_output=True, text=True, ...)] does:
    it returns a completed process, or raises. *)
Inductive run_outcome : Type :=
| CompletedProcess (returncode : Z) (stdout stderr : string)
| RunException (str_e : string).

(** [f"--- History for lines {start}-{end} ---"] *)
Definition section_header (start end_ : Z) : string :=
  ("--- History for lines " ++ str_of_int start ++ "-"
   ++ str_of_int end_ ++ " ---")%string.

(** [f"Error reading lines {start}-{end}: {result.stderr.strip()}"] *)
Definition error_text (start end_ : Z) (stderr : string) : string :=
  ("Error reading lines " ++ str_of_int start ++ "-"
   ++ str_of_int end_ ++ ": " ++ strip stderr)%string.

(** [f"Git execution failed: {str(e)}"] *)
Definition failure_text (str_e : string) : string :=
  ("Git execution failed: " ++ str_e)%string.

Section CodeInspector.

(** [self.tree] *)
Variable tree : node.

(** The outcome of [git log -L <start>,<end>:<file_path> --max-count=5]
    in the directory of the file. *)
Variable git_log_L : Z -> Z -> run_outcome.

(** [datetime.strptime(date_str, "%a %b %d %H:%M:%S %Y %z")] on a [str];
    [None] stands for ValueError. *)
Variable strptime : string -> option datetime.

Definition run_section (range : Z * Z) : string :=
  let '(start, end_) := range in
  match git_log_L start end_ with
  | CompletedProcess returncode stdout stderr =>
      if returncode =? 0
      then (section_header start end_ ++ nl ++ stdout)%string
      else error_text start end_ stderr
  | RunException str_e => failure_text str_e
  end.

Definition _run_git_log_L (line_ranges : list (Z * Z)) : string :=
  match line_ranges with
  | [] => "No lines found to analyze."
  | _ =>
      join nl
        (flat_map (fun range => if fst range >? snd range then []
                                else [run_section range])
                  line_ranges)
  end.

Definition get_git_history_signature (name : string) : string :=
  _run_git_log_L (get_signature_lines tree name).

Definition get_git_history_docstring (name : string) : string :=
  _run_git_log_L (get_docstring_lines tree name).

Definition get_git_history_body (name : string) : string :=
  _run_git_log_L (get_git_history_body_ranges tree name).

(** [_get_latest_commit_info].  A record whose [date] is [None] makes
    [strptime] raise TypeError, which the [except ValueError] clause does
    not catch. *)
Definition _get_latest_commit_info (history_dict : commits_dict)
  : result (datetime * string) :=
  match history_dict with
  | [] => Ok (datetime_min, EmptyString)
  | (latest_hash, r) :: _ =>
      match date r with
      | None => Raise TypeError
      | Some date_str =>
          match strptime date_str with
          | Some dt => Ok (dt, latest_hash)
          | None => Ok (datetime_min, latest_hash)
          end
      end
  end.

Definition warning_A (hash_sig : string) : string :=
  ("Check the docstring or function, as the body was updated. "
   ++ "(Body commit: " ++ hash_sig ++ ")")%string.

Definition warning_B (hash_sig : string) : string :=
  ("Check the docstring, as the signature was updated. "
   ++ "(Signature commit: " ++ hash_sig ++ ")")%string.

(** Step 4 of [check_function_consistency]: the two conditions, with
    Python's short-circuit [and]. *)
Definition perform_checks (date_sig : datetime) (hash_sig : string)
           (date_doc date_body : datetime) : result (list string) :=
  let warnings := [] in
  c1 <- datetime_gt date_body date_sig ;;
  cA <- (if c1 then datetime_gt date_body date_doc else Ok false) ;;
  let warnings := if cA then warnings ++ [warning_A hash_sig] else warnings in
  cB <- datetime_gt date_sig date_doc ;;
  let warnings := if cB then warnings ++ [warning_B hash_sig] else warnings in
  Ok warnings.

Definition check_function_consistency (name : string) : result (list string) :=
  let raw_sig := get_git_history_signature name in
  let raw_doc := get_git_history_docstring name in
  let raw_body := get_git_history_body name in
  let dict_sig := parse_git_log_to_dict raw_sig in
  let dict_doc := parse_git_log_to_dict raw_doc in
  let dict_body := parse_git_log_to_dict raw_body in
  '(date_sig, hash_sig) <- _get_latest_commit_info dict_sig ;;
  '(date_doc, hash_doc) <- _get_latest_commit_info dict_doc ;;
  '(date_body, hash_body) <- _get_latest_commit_info dict_body ;;
  perform_checks date_sig hash_sig date_doc date_body.

End CodeInspector.

(** ** Orders on the nodes of a tree *)

(** The nodes of a tree in source order: a node comes before what it
    holds, and children come in the order they are written. *)
Fixpoint preorder (n : node) : list node :=
  let fix preorder_list (ns : list node) : list node :=
    match ns with
    | [] => []
    | m :: ms => preorder m ++ preorder_list ms
    end in
  n :: match n with
       | Def _ _ _ _ _ b => preorder_list b
       | Expr _ _ _ => []
       | Other _ _ cs => preorder_list cs
       end.

(** The nodes [d] levels below the nodes of [q], left to right. *)
Fixpoint level (d : nat) (q : list node) : list node :=
  match d with
  | O => q
  | S d' => level d' (flat_map iter_child_nodes q)
  end.

(** The matching definitions in source order. *)
Definition source_order_matches (tree : node) (name : string) : list node :=
  filter (is_def_named name) (preorder tree).

(** ** Trees with sound line numbers

    The positions [ast.parse] gives: lines count from 1, a decorator is
    at or before the line of the definition keyword, and a body statement
    lies within the span of its definition. *)

Definition def_lines_ok (n : node) : bool :=
  match n with
  | Def _ _ l e ds b =>
      (1 <=? l) && (l <=? e)
      && forallb (fun d => (1 <=? dec_lineno d) && (dec_lineno d <=? l)) ds
      && forallb (fun s => (l <=? node_lineno s)
                           && (node_lineno s <=? node_end_lineno s)
                           && (node_end_lineno s <=? e)) b
  | _ => true
  end.

Definition tree_lines_ok (tree : node) : bool :=
  forallb def_lines_ok (preorder tree).

(** [1 <= start <= end] *)
Definition range_ok (r : Z * Z) : Prop := 1 <= fst r /\ fst r <= snd r.

(** ** Example trees *)

(** 
<<
    class A:                 # 1
        def f(self): pass    # 2
    def f(): pass            # 3
>> *)
Definition nested_tree : node :=
  Other 0 0
    [ Def ClassDef "A" 1 2 []
        [ Def FunctionDef "f" 2 2 [] [Other 2 2 []] ];
      Def FunctionDef "f" 3 3 [] [Other 3 3 []] ].

(** 
<<
    @overload                # 1
    def f(x):                # 2
        "one reading of f"   # 3
    def f(x):                # 4
        return x             # 5
>> *)
Definition overload_tree : node :=
  Other 0 0
    [ Def FunctionDef "f" 2 3 [mkDecorator 1 (Name "overload")]
        [ Expr 3 3 ConstantStr ];
      Def FunctionDef "f" 4 5 [] [Other 5 5 []] ].

(** The last version of the file of docstringinspector_test.py:
<<
                                                 # 1
    def calculate(a: int, b: int) -> int:        # 2
        '''                                      # 3
        Calculates the sum of two integers.      # 4
        Returns the result.                      # 5
        '''                                      # 6
        result = a + b                           # 7
        return result                            # 8
>> *)
Definition calculate_tree : node :=
  Other 0 0
    [ Def FunctionDef "calculate" 2 8 []
        [ Expr 3 6 ConstantStr; Other 7 7 []; Other 8 8 [] ] ].

(** 
<<
    @cache                   # 1
    def g(): return 1        # 2
>> *)
Definition decorated_one_liner : node :=
  Def FunctionDef "g" 2 2 [mkDecorator 1 (Name "cache")] [Other 2 2 []].

(** 
<<
    def h(x):                # 1
        return x             # 2
>> *)
Definition plain_tree : node :=
  Other 0 0 [ Def FunctionDef "h" 1 2 [] [Other 2 2 []] ].


(** ** A reading of git's default date layout

    [strptime] is a parameter of the model.  The examples instantiate it
    with [strptime_git], which reads the layout git prints by default,
    [Www Mmm D HH:MM:SS YYYY +HHMM] with single spaces, and rejects every
    other string.  On a string it accepts it gives the timestamp Python's
    [datetime.strptime] gives for the format of [_get_latest_commit_info]:
    the day name is not checked against the date, the day of the month
    must exist, seconds stop at 59 and the offset stays below a day.
    Python's reading accepts more than git prints (names in any case, runs
    of spaces, single-digit clock fields, [Z] and offsets written with a
    colon); the general statements below hold for every [strptime], and
    the examples use only dates in git's layout. *)

Definition digit_value (c : ascii) : option Z :=
  let k := code c in
  if ((48 <=? k) && (k <=? 57))%N then Some (Z.of_N k - 48) else None.

Fixpoint digits_value (acc : Z) (s : string) : option Z :=
  match s with
  | EmptyString => Some acc
  | String c s' =>
      match digit_value c with
      | Some d => digits_value (10 * acc + d) s'
      | None => None
      end
  end.

(** A number written with between [lo] and [hi] digits. *)
Definition number (lo hi : nat) (s : string) : option Z :=
  if (lo <=? String.length s)%nat && (String.length s <=? hi)%nat
  then digits_value 0 s else None.

Fixpoint split_on (sep : ascii) (cur : string) (s : string) : list string :=
  match s with
  | EmptyString => [cur]
  | String c s' =>
      if Ascii.eqb c sep then cur :: split_on sep EmptyString s'
      else split_on sep (cur ++ String c EmptyString)%string s'
  end.

Definition weekday_names : list string :=
  ["Mon"; "Tue"; "Wed"; "Thu"; "Fri"; "Sat"; "Sun"].

Definition month_names : list string :=
  ["Jan"; "Feb"; "Mar"; "Apr"; "May"; "Jun";
   "Jul"; "Aug"; "Sep"; "Oct"; "Nov"; "Dec"].

Fixpoint index_of (x : string) (l : list string) (i : Z) : option Z :=
  match l with
  | [] => None
  | y :: l' => if String.eqb x y then Some i else index_of x l' (i + 1)
  end.

Definition is_leap (y : Z) : bool :=
  (y mod 4 =? 0) && (negb (y mod 100 =? 0) || (y mod 400 =? 0)).

Definition days_in_month (y m : Z) : Z :=
  if m =? 2 then (if is_leap y then 29 else 28)
  else if (m =? 4) || (m =? 6) || (m =? 9) || (m =? 11) then 30 else 31.

Fixpoint days_before_month (y : Z) (m : nat) : Z :=
  match m with
  | O => 0
  | S m' => days_before_month y m' + days_in_month y (Z.of_nat m)
  end.

(** Days from 0001-01-01 to the given day. *)
Definition days_before (y m d : Z) : Z :=
  let y1 := y - 1 in
  y1 * 365 + y1 / 4 - y1 / 100 + y1 / 400
  + days_before_month y (Z.to_nat (m - 1)) + (d - 1).

Definition clock (s : string) : option Z :=
  match split_on ":" EmptyString s with
  | [hh; mm; ss] =>
      match number 2 2 hh, number 2 2 mm, number 2 2 ss with
      | Some h, Some m, Some sec =>
          if (h <? 24) && (m <? 60) && (sec <? 60)
          then Some (h * 3600 + m * 60 + sec) else None
      | _, _, _ => None
      end
  | _ => None
  end.

Definition utc_offset (s : string) : option Z :=
  match s with
  | String sign digits =>
      match number 4 4 digits with
      | Some v =>
          let secs := (v / 100) * 3600 + (v mod 100) * 60 in
          if (v mod 100 <? 60) && (v / 100 <? 24) then
            if Ascii.eqb sign "+" then Some secs
            else if Ascii.eqb sign "-" then Some (- secs)
            else None
          else None
      | None => None
      end
  | EmptyString => None
  end.

Definition strptime_git (s : string) : option datetime :=
  match split_on " " EmptyString s with
  | [wd; mon; day; time; year; tz] =>
      match index_of wd weekday_names 0, index_of mon month_names 1,
            number 1 2 day, clock time, number 4 4 year, utc_offset tz with
      | Some _, Some m, Some d, Some t, Some y, Some off =>
          if (1 <=? y) && (1 <=? d) && (d <=? days_in_month y m)
          then Some (Aware ((days_before y m d * 86400 + t) * 1000000)
                           (off * 1000000))
          else None
      | _, _, _, _, _, _ => None
      end
  | _ => None
  end.

(** ** Example histories *)

Definition hash_1 : string := "1111111111111111111111111111111111111111".
Definition hash_2 : string := "2222222222222222222222222222222222222222".
Definition hash_3 : string := "3333333333333333333333333333333333333333".
Definition hash_4 : string := "4444444444444444444444444444444444444444".

(** What [git log -L] prints for one revision. *)
Definition revision_text (hash date_str subject hunk : string) : string :=
  join nl
    [ ("commit " ++ hash)%string;
      "Author: Test User <test@example.com>";
      ("Date:   " ++ date_str)%string;
      EmptyString;
      ("    " ++ subject)%string;
      EmptyString;
      "diff --git a/math_utils.py b/math_utils.py";
      "--- a/math_utils.py";
      "+++ b/math_utils.py";
      hunk;
      EmptyString ].

(** The repository of docstringinspector_test.py after its fourth commit:
    the signature line was last changed by the second commit, the
    docstring by the third and the body by the fourth. *)
Definition calculate_git (start end_ : Z) : run_outcome :=
  if (start =? 2) && (end_ =? 2) then
    CompletedProcess 0
      (revision_text hash_2 "Fri Jan 11 20:23:52 2026 +0100"
         "Update signature with type hints" "@@ -2,1 +2,1 @@") EmptyString
  else if (start =? 3) && (end_ =? 6) then
    CompletedProcess 0
      (revision_text hash_3 "Fri Jan 11 20:23:53 2026 +0100"
         "Update docstring to be more descriptive" "@@ -3,3 +3,4 @@") EmptyString
  else if (start =? 7) && (end_ =? 8) then
    CompletedProcess 0
      (revision_text hash_4 "Fri Jan 11 20:23:54 2026 +0100"
         "Refactor body to use variable" "@@ -6,1 +7,2 @@") EmptyString
  else CompletedProcess 128 EmptyString "fatal: file has only 8 lines".

(** A repository with one commit that created the file of [plain_tree]. *)
Definition plain_git (start end_ : Z) : run_outcome :=
  CompletedProcess 0
    (revision_text hash_1 "Fri Jan 11 20:23:51 2026 +0100"
       "Initial commit" "@@ -0,0 +1,2 @@") EmptyString.


(** ** Well-formed history text

    The shape of the output of the history tool for one revision: the
    revision marker, the author line, the date line, an empty line, the
    message lines indented by four spaces, an empty line, the line that
    starts the diff, and the lines that follow it up to the next revision
    marker (the body of the diff, and in a batch the empty line and the
    header or error text of the next section). *)

Record revision : Type := mkRevision {
  rev_hash : string;
  rev_name : string;
  rev_email : string;
  rev_date : string;
  rev_message : list string;
  rev_diff_start : string;
  rev_diff_rest : list string
}.

Definition indent (l : string) : string := ("    " ++ l)%string.

Definition commit_line (h : string) : string := ("commit " ++ h)%string.

Definition author_line (name email : string) : string :=
  ("Author: " ++ name ++ " <" ++ email ++ ">")%string.

Definition date_line (d : string) : string := ("Date:   " ++ d)%string.

Definition diff_line (rest : string) : string := ("diff --git" ++ rest)%string.

(** The lines between the date line and the diff of a revision. *)
Definition message_block (r : revision) : list string :=
  EmptyString :: map indent (rev_message r) ++ [EmptyString].

Definition revision_lines (r : revision) : list string :=
  [ commit_line (rev_hash r);
    author_line (rev_name r) (rev_email r);
    date_line (rev_date r) ]
  ++ message_block r
  ++ [ diff_line (rev_diff_start r) ]
  ++ rev_diff_rest r.

(** A text of lines, each ended by a newline. *)
Fixpoint unlines (ls : list string) : string :=
  match ls with
  | [] => EmptyString
  | l :: ls' => (l ++ nl ++ unlines ls')%string
  end.

(** The text of a history: the lines before the first revision, then the
    revisions, newest first. *)
Definition history_text (before : list string) (revs : list revision) : string :=
  unlines (before ++ flat_map revision_lines revs).

Definition no_linebreak (s : string) : bool :=
  string_forall (fun c => negb (is_linebreak c)) s.

(** A character that is no line boundary, or the newline. *)
Definition line_or_newline (c : ascii) : bool :=
  negb (is_linebreak c) || Ascii.eqb c newline.

Definition is_marker (l : string) : bool :=
  match commit_pattern l with
  | Some _ => true
  | None => false
  end.

(** A line that can stand between revisions: one line, and not a revision
    marker. *)
Definition plain_line (l : string) : bool :=
  no_linebreak l && negb (is_marker l).

(** A string with something in it and no space at either end. *)
Definition trimmed (s : string) : bool :=
  negb (String.eqb s EmptyString)
  && String.eqb (lstrip s) s && String.eqb (rstrip s) s.

(** A hash as the marker pattern captures it. *)
Definition is_hash (h : string) : bool :=
  (String.length h =? 40)%nat && string_forall is_hex h.

Definition wf_revision (r : revision) : bool :=
  is_hash (rev_hash r)
  && trimmed (rev_name r) && no_linebreak (rev_name r)
  && trimmed (rev_email r) && no_linebreak (rev_email r)
  && string_forall (fun c => negb (Ascii.eqb c "<")) (rev_email r)
  && trimmed (rev_date r) && no_linebreak (rev_date r)
  && forallb no_linebreak (rev_message r)
  && no_linebreak (rev_diff_start r)
  && forallb plain_line (rev_diff_rest r).

Definition wf_history (before : list string) (revs : list revision) : bool :=
  forallb plain_line before && forallb wf_revision revs.

(** ** Reconstruction of a history text from a mapping *)

(** [s.split("\n")] *)
Definition split_nl (s : string) : list string :=
  split_on newline EmptyString s.

(** The lines of one record, written in the shape of a revision: the
    revision marker, the author line, the date line, an empty line, the
    message behind an indentation of four spaces, an empty line, and the
    lines of the diff.  The lines of a message after the first still carry
    the indentation they were printed with, since [strip] trims the ends
    of the message only, and are written as they are. *)
Definition record_lines (entry : string * commit_record) : list string :=
  let '(h, r) := entry in
  [ commit_line h ]
  ++ (match author_name r, author_email r with
      | Some name, Some email => [ author_line name email ]
      | _, _ => []
      end)
  ++ (match date r with
      | Some d => [ date_line d ]
      | None => []
      end)
  ++ [ EmptyString ]
  ++ split_nl (indent (message r))
  ++ [ EmptyString ]
  ++ split_nl (diff r).

(** The records one after the other, in the order of the mapping. *)
Definition serialize (d : commits_dict) : string :=
  unlines (flat_map record_lines d).

(** A line that is empty or starts with a space. *)
Definition starts_blank (l : string) : bool :=
  match l with
  | EmptyString => true
  | String c _ => is_space c
  end.

(** A string without a space at either end. *)
Definition stripped (s : string) : bool :=
  String.eqb (lstrip s) s && String.eqb (rstrip s) s.

(** The record a well-formed revision is parsed to. *)
Definition record_of (r : revision) : commit_record :=
  mkRecord (Some (rev_name r)) (Some (rev_email r)) (Some (rev_date r))
           (strip (join nl (message_block r)))
           (join nl (diff_line (rev_diff_start r) :: rev_diff_rest r)).

(** The mapping a list of revisions is parsed to. *)
Definition dict_of (revs : list revision) : commits_dict :=
  fold_left (fun d r => dict_set d (rev_hash r) (record_of r)) revs [].

(** An entry that the reconstruction writes in the shape of a revision. *)
Definition canonical (entry : string * commit_record) : bool :=
  let '(h, r) := entry in
  is_hash h
  && match author_name r, author_email r, date r with
     | Some name, Some email, Some d =>
         trimmed name && no_linebreak name
         && trimmed email && no_linebreak email
         && string_forall (fun c => negb (Ascii.eqb c "<")) email
         && trimmed d && no_linebreak d
     | _, _, _ => false
     end
  && stripped (message r)
  && forallb (fun l => no_linebreak l && starts_blank l)
             (split_nl (indent (message r)))
  && match split_nl (diff r) with
     | first :: rest =>
         diff_start_pattern first && forallb plain_line (first :: rest)
     | [] => false
     end.

(** A revision whose message opens with the hash of another revision. *)
Definition revert_revision : revision :=
  mkRevision hash_4 "Test User" "test@example.com"
             "Fri Jan 11 20:23:55 2026 +0100"
             [ ("commit " ++ hash_3 ++ " broke the sum")%string ]
             " a/math_utils.py b/math_utils.py"
             [ "--- a/math_utils.py"; "+++ b/math_utils.py";
               "@@ -7,2 +7,1 @@" ].

Definition docstring_revision : revision :=
  mkRevision hash_3 "Test User" "test@example.com"
             "Fri Jan 11 20:23:53 2026 +0100"
             [ "Update docstring to be more descriptive" ]
             " a/math_utils.py b/math_utils.py"
             [ "--- a/math_utils.py"; "+++ b/math_utils.py";
               "@@ -3,3 +3,4 @@" ].

Definition plain_revision : revision :=
  mkRevision hash_4 "Test User" "test@example.com"
             "Fri Jan 11 20:23:54 2026 +0100"
             [ "Refactor body to use variable"; EmptyString;
               "Keeps the sum in a variable." ]
             " a/math_utils.py b/math_utils.py"
             [ "--- a/math_utils.py"; "+++ b/math_utils.py";
               "@@ -6,1 +7,2 @@"; EmptyString;
               "--- History for lines 3-6 ---" ].

(** ** Notions for further properties *)

(** The line [l] lies in the range [r]. *)
Definition in_range (l : Z) (r : Z * Z) : Prop := fst r <= l /\ l <= snd r.

(** The range [r] lies in the range [outer]. *)
Definition within (r outer : Z * Z) : Prop :=
  fst outer <= fst r /\ fst r <= snd r /\ snd r <= snd outer.

(** A range the loop of [_run_git_log_L] does not skip. *)
Definition runnable (range : Z * Z) : bool := negb (fst range >? snd range).

(** The hashes of the revision markers of a list of lines, in order. *)
Definition markers (lines : list string) : list string :=
  flat_map (fun l => match commit_pattern l with
                     | Some h => [h]
                     | None => []
                     end) lines.

(** The keys of a dictionary after [d[key] = ...]. *)
Definition add_key (ks : list string) (k : string) : list string :=
  if in_dec string_dec k ks then ks else ks ++ [k].

(** A list without its repetitions, each element at its first place. *)
Definition first_occurrences (ks : list string) : list string :=
  fold_left add_key ks [].


(** A run of git that fails and reports the failure on one line. *)
Definition fails_plainly (o : run_outcome) : bool :=
  match o with
  | CompletedProcess returncode _ stderr =>
      negb (returncode =? 0) && no_linebreak (strip stderr)
  | RunException str_e => no_linebreak str_e
  end.

(** A directory that is not a repository. *)
Definition no_repository (start end_ : Z) : run_outcome :=
  CompletedProcess 128 EmptyString
    "fatal: not a git repository (or any of the parent directories): .git".

(** 
<<
    @overload                # 1
    def f(x: int) -> int:    # 2
        ...                  # 3
    @typing.overload         # 4
    def f(x: str) -> str:    # 5
        ...                  # 6
>> *)
Definition overloads_only_tree : node :=
  Other 0 0
    [ Def FunctionDef "f" 2 3 [mkDecorator 1 (Name "overload")]
        [ Expr 3 3 ConstantOther ];
      Def FunctionDef "f" 5 6 [mkDecorator 4 (Attribute "overload")]
        [ Expr 6 6 ConstantOther ] ].

(** The definition of [calculate_tree]. *)
Definition calculate_def : node :=
  Def FunctionDef "calculate" 2 8 []
    [ Expr 3 6 ConstantStr; Other 7 7 []; Other 8 8 [] ].

(** What the loop of [_run_git_log_L] collects in [output_log]. *)
Definition output_log (git_log_L : Z -> Z -> run_outcome)
           (line_ranges : list (Z * Z)) : list string :=
  flat_map (fun range => if fst range >? snd range then []
                         else [run_section git_log_L range]) line_ranges.

(** What holds of every stored record. *)
Definition record_sound (r : commit_record) : Prop :=
  strip (message r) = message r
  /\ (date r = None -> message r = EmptyString /\ diff r = EmptyString)
  /\ (author_name r = None <-> author_email r = None).

(** What holds of the record in progress, by state. *)
Definition data_sound (st : parser_state) (d : commit_data) : Prop :=
  (data_author_name d = None <-> data_author_email d = None)
  /\ (st = HEADER -> data_message d = [] /\ data_diff d = [])
  /\ (st <> HEADER -> data_date d <> None).

Definition parser_sound (p : parser) : Prop :=
  (forall entry, In entry (commits p) -> record_sound (snd entry))
  /\ (forall d, current_data p = Some d -> data_sound (state p) d).

(** 
<<
    def f(x):                # 1
        'Doc.'               # 2
>> *)
Definition docstring_only_tree : node :=
  Other 0 0 [ Def FunctionDef "f" 1 2 [] [ Expr 2 2 ConstantStr ] ].

(** A repository in which the first commit created the file of
    [docstring_only_tree] and the second, one second later, changed the
    signature line: the history of line 1 holds both revisions, newest
    first, and the history of line 2 holds the first. *)
Definition docstring_only_git (start end_ : Z) : run_outcome :=
  if (start =? 1) && (end_ =? 1) then
    CompletedProcess 0
      (revision_text hash_2 "Fri Jan 11 20:23:52 2026 +0100"
         "Rename the argument" "@@ -1,1 +1,1 @@"
       ++ nl
       ++ revision_text hash_1 "Fri Jan 11 20:23:51 2026 +0100"
            "Initial commit" "@@ -0,0 +1,1 @@")%string EmptyString
  else
    CompletedProcess 0
      (revision_text hash_1 "Fri Jan 11 20:23:51 2026 +0100"
         "Initial commit" "@@ -0,0 +2,1 @@") EmptyString.

(** What [git log -L] prints for one revision when the configuration
    asks for the short format ([format.pretty = short]): no date line. *)
Definition short_revision_text : string :=
  join nl
    [ ("commit " ++ hash_1)%string;
      "Author: Test User <test@example.com>";
      EmptyString;
      "    Initial commit";
      EmptyString;
      "diff --git a/math_utils.py b/math_utils.py";
      "--- a/math_utils.py";
      "+++ b/math_utils.py";
      "@@ -0,0 +1,2 @@";
      EmptyString ].

(** * Properties *)

(** ** The order of [ast.walk] *)

Lemma walk_queue_app (q r : list node) :
  walk_queue (q ++ r) = q ++ walk_queue (r ++ flat_map iter_child_nodes q).
Proof.
  revert r. induction q as [|n q IH]; intro r; simpl.
  - now rewrite app_nil_r.
  - simp walk_queue. rewrite <- app_assoc, IH, <- app_assoc. reflexivity.
Qed.

Lemma walk_queue_levels (q : list node) :
  walk_queue q = q ++ walk_queue (flat_map iter_child_nodes q).
Proof.
  rewrite <- (app_nil_r q) at 1. rewrite walk_queue_app. reflexivity.
Qed.

Lemma node_size_pos (n : node) : (1 <= node_size n)%nat.
Proof. rewrite node_size_children. lia. Qed.

Lemma queue_size_children (q : list node) :
  (queue_size (flat_map iter_child_nodes q) + List.length q = queue_size q)%nat.
Proof.
  induction q as [|n q IH]; simpl; [reflexivity|].
  rewrite queue_size_app, (node_size_children n). lia.
Qed.

Lemma level_nil (d : nat) : level d [] = [].
Proof. induction d; simpl; auto. Qed.

(** The walk yields the levels of the queue one after the other. *)
Lemma walk_queue_by_level (bound : nat) :
  forall q, (queue_size q <= bound)%nat ->
  walk_queue q = flat_map (fun d => level d q) (seq 0 bound).
Proof.
  induction bound as [|b IH]; intros q Hq.
  - destruct q as [|n q]; [reflexivity|].
    simpl in Hq. pose proof (node_size_pos n). lia.
  - rewrite walk_queue_levels.
    cbn [seq flat_map level]. f_equal.
    rewrite <- seq_shift.
    rewrite (flat_map_concat_map _ (map S _)), map_map, <- flat_map_concat_map.
    cbn [level]. apply IH.
    pose proof (queue_size_children q).
    destruct q as [|n q]; simpl in *; lia.
Qed.

Lemma preorder_children (n : node) :
  preorder n = n :: flat_map preorder (iter_child_nodes n).
Proof. destruct n; reflexivity. Qed.

Lemma walk_queue_preorder (q : list node) :
  Permutation (walk_queue q) (flat_map preorder q).
Proof.
  funelim (walk_queue q); simp walk_queue; [constructor|].
  cbn [flat_map]. rewrite preorder_children. cbn [app].
  constructor. etransitivity; [eassumption|].
  rewrite flat_map_app. apply Permutation_app_comm.
Qed.

Lemma walk_preorder (tree : node) : Permutation (walk tree) (preorder tree).
Proof.
  unfold walk. etransitivity; [apply walk_queue_preorder|].
  simpl. now rewrite app_nil_r.
Qed.

Lemma filter_permutation {A : Type} (f : A -> bool) (l l' : list A) :
  Permutation l l' -> Permutation (filter f l) (filter f l').
Proof.
  induction 1; simpl.
  - constructor.
  - destruct (f x); [constructor|]; assumption.
  - destruct (f x), (f y); try constructor; try reflexivity.
  - etransitivity; eassumption.
Qed.

Lemma find_nodes_in_tree (tree : node) (name : string) (n : node) :
  In n (_find_nodes tree name) -> In n (preorder tree).
Proof.
  unfold _find_nodes. intro H. apply filter_In in H. destruct H as [H _].
  eapply Permutation_in; [apply walk_preorder | exact H].
Qed.

(** C2, as the specification states it, fails: on [nested_tree] the method
    nested in the class is written before the function of the same name,
    and [_find_nodes] returns it after the function. *)
Lemma find_nodes_not_in_source_order :
  map node_lineno (_find_nodes nested_tree "f") = [3; 2]
  /\ map node_lineno (source_order_matches nested_tree "f") = [2; 3]
  /\ _find_nodes nested_tree "f" <> source_order_matches nested_tree "f".
Proof.
  split; [reflexivity|]. split; [reflexivity|].
  intro H. apply (f_equal (map node_lineno)) in H. discriminate H.
Qed.

(** C2 (amended): for every tree and every name, [_find_nodes] returns
    exactly the function, async-function and class nodes anywhere in the
    tree whose identifier equals the name, each as often as it occurs (the
    result is a rearrangement of the matching nodes in source order), in
    the breadth-first order of [ast.walk]: the matches of one nesting depth
    come before those of the next depth, and within one depth they come in
    source order. *)
Theorem find_nodes_breadth_first (tree : node) (name : string) :
  Permutation (_find_nodes tree name) (source_order_matches tree name)
  /\ _find_nodes tree name
     = flat_map (fun d => filter (is_def_named name) (level d [tree]))
                (seq 0 (node_size tree)).
Proof.
  split.
  - apply filter_permutation, walk_preorder.
  - unfold _find_nodes, walk.
    rewrite (walk_queue_by_level (node_size tree)) by (simpl; lia).
    induction (seq 0 (node_size tree)) as [|d ds IH]; simpl; [reflexivity|].
    rewrite filter_app, IH. reflexivity.
Qed.

(** ** Ranges of a definition *)

(** C3: on [overload_tree] the first definition of [f] carries the
    [overload] decorator and opens with a string literal; the comment of
    [get_docstring_lines] announces that overloads are skipped, and the
    loop reports the literal's lines all the same, next to nothing for the
    implementation, which has no docstring. *)
Theorem docstring_lines_of_overload :
  map is_overload (_find_nodes overload_tree "f") = [true; false]
  /\ get_docstring_lines overload_tree "f" = [(3, 3)].
Proof. split; reflexivity. Qed.

(** C4, as the specification states it, fails: for [calculate] the body
    history is asked for lines 7 to 8 only, while the ranges without the
    docstring are line 2 and lines 7 to 8; for [h], which has no
    docstring, the body history is asked for line 2 and not for the whole
    definition. *)
Lemma body_history_is_not_implementation_without_docstring :
  get_git_history_body_ranges calculate_tree "calculate" = [(7, 8)]
  /\ get_implementation_without_docstring_lines calculate_tree "calculate"
     = [(2, 2); (7, 8)]
  /\ get_git_history_body_ranges plain_tree "h" = [(2, 2)]
  /\ get_implementation_without_docstring_lines plain_tree "h" = [(1, 2)].
Proof. repeat split; reflexivity. Qed.

(** C4 (amended): for every definition that is not overload-marked and has
    a body, the ranges [get_git_history_body] hands to [_run_git_log_L]
    are: when a doc comment exists, the sub-range after it (doc.end + 1 to
    the end of the definition) when that is not empty, which is the part of
    the ranges of [get_implementation_without_docstring_lines] that follows
    the sub-range before the doc comment; when no doc comment exists, the
    single range from the line of the first body statement to the end of
    the definition, when that is not empty. *)
Theorem body_history_ranges_spec (n first : node) (rest : list node) :
  is_overload n = false ->
  node_body n = first :: rest ->
  match _get_docstring_node n with
  | Some doc =>
      body_history_ranges n
      = (if node_end_lineno doc <? node_end_lineno n
         then [(node_end_lineno doc + 1, node_end_lineno n)] else [])
      /\ implementation_without_docstring_ranges n
         = (if node_lineno doc >? fst (_get_node_range n)
            then [(fst (_get_node_range n), node_lineno doc - 1)] else [])
           ++ body_history_ranges n
  | None =>
      body_history_ranges n
      = (if node_lineno first <=? node_end_lineno n
         then [(node_lineno first, node_end_lineno n)] else [])
  end.
Proof.
  intros Hov Hbody.
  unfold body_history_ranges, implementation_without_docstring_ranges.
  rewrite Hov. cbn [orb]. rewrite Hbody.
  destruct (_get_docstring_node n) as [doc|] eqn:Hdoc; [|reflexivity].
  cbn [_get_node_range fst snd].
  assert (E : (node_end_lineno doc + 1 <=? node_end_lineno n)
              = (node_end_lineno doc <? node_end_lineno n)).
  { destruct (Z.leb_spec (node_end_lineno doc + 1) (node_end_lineno n)),
             (Z.ltb_spec (node_end_lineno doc) (node_end_lineno n));
      try reflexivity; lia. }
  rewrite E. split; reflexivity.
Qed.

Lemma body_history_ranges_spec_witness :
  (is_overload (Def FunctionDef "h" 1 2 [] [Other 2 2 []]) = false
   /\ node_body (Def FunctionDef "h" 1 2 [] [Other 2 2 []]) = [Other 2 2 []])
  /\ body_history_ranges (Def FunctionDef "h" 1 2 [] [Other 2 2 []]) = [(2, 2)].
Proof.
  split; [split; reflexivity|].
  exact (body_history_ranges_spec
           (Def FunctionDef "h" 1 2 [] [Other 2 2 []]) (Other 2 2 []) []
           eq_refl eq_refl).
Defined.

(** C6, as the specification states it, fails: a single-line definition
    with a decorator on the line before has the signature range from the
    decorator's line to the line of the definition keyword, two lines. *)
Lemma signature_of_decorated_one_liner :
  is_overload decorated_one_liner = false
  /\ map node_lineno (node_body decorated_one_liner)
     = [node_lineno decorated_one_liner]
  /\ signature_range decorated_one_liner = (1, 2)
  /\ signature_range decorated_one_liner
     <> (node_lineno decorated_one_liner, node_lineno decorated_one_liner).
Proof. repeat split; try reflexivity. discriminate. Qed.

(** C6 (amended): for every definition that is not overload-marked and
    whose first body statement begins on the line of the definition
    keyword, the signature range ends on that line and starts where the
    definition range starts: on the line of the first decorator when the
    definition has decorators, on the line of the definition keyword
    otherwise.  It is one line exactly when no decorator stands on an
    earlier line. *)
Theorem signature_range_single_line (n first : node) (rest : list node) :
  is_overload n = false ->
  node_body n = first :: rest ->
  node_lineno first = node_lineno n ->
  signature_range n = (fst (_get_node_range n), node_lineno n)
  /\ (node_decorator_list n = [] ->
      signature_range n = (node_lineno n, node_lineno n))
  /\ (forall d ds, node_decorator_list n = d :: ds ->
      signature_range n = (dec_lineno d, node_lineno n)).
Proof.
  intros Hov Hbody Hline.
  assert (E : signature_range n = (fst (_get_node_range n), node_lineno n)).
  { unfold signature_range. cbn [_get_node_range].
    rewrite Hov, Hbody, Hline, Z.eqb_refl. reflexivity. }
  split; [exact E|]. split.
  - intro Hd. rewrite E. unfold _get_node_range. rewrite Hd. reflexivity.
  - intros d ds Hd. rewrite E. unfold _get_node_range. rewrite Hd. reflexivity.
Qed.

Lemma signature_range_single_line_witness :
  signature_range decorated_one_liner
  = (fst (_get_node_range decorated_one_liner), node_lineno decorated_one_liner).
Proof.
  exact (proj1 (signature_range_single_line
                  decorated_one_liner (Other 2 2 []) []
                  eq_refl eq_refl eq_refl)).
Defined.

(** ** Every emitted range is a range *)

Section RangeInvariant.

Variable n : node.
Hypothesis Hok : def_lines_ok n = true.
Hypothesis Hdef : exists name, is_def_named name n = true.

Lemma node_range_bounds :
  1 <= fst (_get_node_range n)
  /\ fst (_get_node_range n) <= node_lineno n
  /\ node_lineno n <= node_end_lineno n.
Proof.
  destruct n as [k nm l e ds b | l e v | l e cs];
    try (destruct Hdef as [? Hd]; discriminate Hd).
  cbn in Hok |- *. rewrite !andb_true_iff, !Z.leb_le in Hok.
  destruct Hok as [[[H1 H2] Hds] _].
  destruct ds as [|d ds]; cbn in *; [lia|].
  rewrite !andb_true_iff, !Z.leb_le in Hds. lia.
Qed.

Lemma first_statement_bounds (first : node) (rest : list node) :
  node_body n = first :: rest ->
  node_lineno n <= node_lineno first
  /\ node_lineno first <= node_end_lineno first
  /\ node_end_lineno first <= node_end_lineno n.
Proof.
  destruct n as [k nm l e ds b | l e v | l e cs];
    try (destruct Hdef as [? Hd]; discriminate Hd).
  cbn. intros ->.
  cbn in Hok. rewrite !andb_true_iff, !Z.leb_le in Hok. lia.
Qed.

Lemma docstring_node_first (doc : node) :
  _get_docstring_node n = Some doc ->
  exists rest, node_body n = doc :: rest.
Proof.
  unfold _get_docstring_node.
  destruct (node_body n) as [|first rest]; [discriminate|].
  destruct first as [| l e [| |] |]; try discriminate.
  intro H. injection H as <-. now exists rest.
Qed.

Lemma definition_range_ok : range_ok (_get_node_range n).
Proof.
  pose proof node_range_bounds as B. unfold range_ok.
  cbn [_get_node_range fst snd] in *. lia.
Qed.

Lemma signature_range_ok : range_ok (signature_range n).
Proof.
  pose proof node_range_bounds as B. unfold range_ok, signature_range.
  cbn [_get_node_range fst snd] in *.
  destruct (is_overload n); [cbn; lia|].
  destruct (node_body n) as [|first rest] eqn:Hb; [cbn; lia|].
  destruct (node_lineno first =? node_lineno n); cbn; lia.
Qed.

Lemma docstring_ranges_ok (r : Z * Z) :
  In r (docstring_ranges n) -> range_ok r.
Proof.
  pose proof node_range_bounds as B. unfold docstring_ranges.
  destruct (_get_docstring_node n) as [doc|] eqn:Hdoc; [|intros []].
  destruct (docstring_node_first doc Hdoc) as [rest Hb].
  pose proof (first_statement_bounds doc rest Hb) as F.
  intros [<- | []]. unfold range_ok. cbn. lia.
Qed.

Lemma implementation_without_docstring_ranges_ok (r : Z * Z) :
  In r (implementation_without_docstring_ranges n) -> range_ok r.
Proof.
  pose proof node_range_bounds as B.
  unfold implementation_without_docstring_ranges.
  cbn [_get_node_range fst snd] in *.
  destruct (_get_docstring_node n) as [doc|] eqn:Hdoc.
  - destruct (docstring_node_first doc Hdoc) as [rest Hb].
    pose proof (first_statement_bounds doc rest Hb) as F.
    intro H. apply in_app_or in H. destruct H as [H | H].
    + destruct (Z.gtb_spec (node_lineno doc)
                  (match node_decorator_list n with
                   | [] => node_lineno n
                   | d :: _ => dec_lineno d
                   end)) as [G | G]; [|destruct H].
      destruct H as [<- | []]. unfold range_ok. cbn. lia.
    + destruct (Z.ltb_spec (node_end_lineno doc) (node_end_lineno n))
        as [G | G]; [|destruct H].
      destruct H as [<- | []]. unfold range_ok. cbn. lia.
  - intros [<- | []]. unfold range_ok. cbn. lia.
Qed.

End RangeInvariant.

Lemma find_nodes_ok (tree : node) (name : string) (n : node) :
  tree_lines_ok tree = true ->
  In n (_find_nodes tree name) ->
  def_lines_ok n = true /\ exists name', is_def_named name' n = true.
Proof.
  intros Hok Hin. split.
  - unfold tree_lines_ok in Hok. rewrite forallb_forall in Hok.
    apply Hok. eapply find_nodes_in_tree; eassumption.
  - exists name. unfold _find_nodes in Hin. apply filter_In in Hin. tauto.
Qed.

(** C8: on a tree whose line numbers count from 1, whose decorators stand
    at or before the line of their definition keyword and whose body
    statements lie within the span of their definition, every range that
    [get_definition_lines], [get_signature_lines], [get_docstring_lines]
    and [get_implementation_without_docstring_lines] return satisfies
    [1 <= start <= end]. *)
Theorem emitted_ranges_ok (tree : node) (name : string) (r : Z * Z) :
  tree_lines_ok tree = true ->
  In r (get_definition_lines tree name)
  \/ In r (get_signature_lines tree name)
  \/ In r (get_docstring_lines tree name)
  \/ In r (get_implementation_without_docstring_lines tree name) ->
  1 <= fst r /\ fst r <= snd r.
Proof.
  intros Hok H. change (range_ok r).
  unfold get_definition_lines, get_signature_lines, get_docstring_lines,
    get_implementation_without_docstring_lines in H.
  rewrite !in_map_iff, !in_flat_map in H.
  destruct H as [[n [<- Hn]] | [[n [<- Hn]] | [[n [Hn Hr]] | [n [Hn Hr]]]]];
    destruct (find_nodes_ok tree name n Hok Hn) as [Hd Hnm].
  - now apply definition_range_ok.
  - now apply signature_range_ok.
  - now apply (docstring_ranges_ok n).
  - now apply (implementation_without_docstring_ranges_ok n).
Qed.

Lemma emitted_ranges_ok_witness :
  tree_lines_ok calculate_tree = true
  /\ In (7, 8) (get_implementation_without_docstring_lines
                  calculate_tree "calculate")
  /\ (1 <= 7 /\ 7 <= 8).
Proof.
  split; [reflexivity|]. split; [right; left; reflexivity|].
  apply (emitted_ranges_ok calculate_tree "calculate" (7, 8) eq_refl).
  right. right. right. right. left. reflexivity.
Defined.

(** ** Latest revision and the two rules *)

(** The paths of [_get_latest_commit_info] that return: the minimum
    timestamp and the empty hash for an empty mapping; for a first entry
    with a date string, the hash of that entry, whatever follows it, with
    the timestamp read from the date string, or with the minimum timestamp
    when the date string does not parse. *)
Theorem latest_commit_info_spec (strptime : string -> option datetime) :
  _get_latest_commit_info strptime [] = Ok (datetime_min, EmptyString)
  /\ forall (h date_str msg df : string) (name email : option string)
            (rest : commits_dict),
       _get_latest_commit_info strptime
         ((h, mkRecord name email (Some date_str) msg df) :: rest)
       = Ok (match strptime date_str with
             | Some dt => dt
             | None => datetime_min
             end, h).
Proof.
  split; [reflexivity|]. intros. cbn.
  destruct (strptime date_str); reflexivity.
Qed.

(** C7: the history of one revision printed without a date line, as git
    prints it in the short format, is parsed to a mapping that is not
    empty and whose first entry has no date; on this mapping
    [_get_latest_commit_info] raises TypeError instead of returning the
    minimum timestamp with the hash that was found, while for an entry
    with a date string that does not parse it returns that pair. *)
Theorem latest_commit_info_raises_without_date
        (strptime : string -> option datetime) :
  parse_git_log_to_dict short_revision_text
  = [(hash_1, mkRecord (Some "Test User") (Some "test@example.com") None
                       EmptyString EmptyString)]
  /\ _get_latest_commit_info strptime
       (parse_git_log_to_dict short_revision_text)
     = Raise TypeError
  /\ strptime_git "not a date" = None
  /\ _get_latest_commit_info strptime_git
       [(hash_1, mkRecord (Some "Test User") (Some "test@example.com")
                          (Some "not a date") EmptyString EmptyString)]
     = Ok (datetime_min, hash_1).
Proof.
  assert (E : parse_git_log_to_dict short_revision_text
              = [(hash_1, mkRecord (Some "Test User")
                                   (Some "test@example.com") None
                                   EmptyString EmptyString)])
    by (vm_compute; reflexivity).
  rewrite E. split; [reflexivity|]. split; [reflexivity|].
  split; vm_compute; reflexivity.
Qed.

Lemma later_irrefl (a : datetime) : later a a = false.
Proof. destruct a; cbn; rewrite Z.gtb_ltb; apply Z.ltb_irrefl. Qed.

Lemma datetime_gt_same_kind (a b : datetime) :
  is_aware a = is_aware b -> datetime_gt a b = Ok (later a b).
Proof. destruct a, b; cbn; intro H; try discriminate H; reflexivity. Qed.

Lemma datetime_gt_mixed (a b : datetime) :
  is_aware a <> is_aware b -> datetime_gt a b = Raise TypeError.
Proof. destruct a, b; cbn; intro H; try reflexivity; now elim H. Qed.

Lemma warning_A_not_B (h h' : string) : warning_A h <> warning_B h'.
Proof. unfold warning_A, warning_B. cbn. discriminate. Qed.

Lemma perform_checks_same_kind (date_sig date_doc date_body : datetime)
      (hash_sig : string) :
  is_aware date_sig = is_aware date_doc ->
  is_aware date_body = is_aware date_sig ->
  perform_checks date_sig hash_sig date_doc date_body
  = Ok ((if later date_body date_sig && later date_body date_doc
         then [warning_A hash_sig] else [])
        ++ (if later date_sig date_doc then [warning_B hash_sig] else [])).
Proof.
  intros H1 H2. unfold perform_checks.
  rewrite (datetime_gt_same_kind date_body date_sig) by assumption.
  rewrite (datetime_gt_same_kind date_sig date_doc) by assumption.
  cbn [bind].
  destruct (later date_body date_sig); cbn [andb bind].
  - rewrite (datetime_gt_same_kind date_body date_doc) by congruence.
    cbn [bind]. destruct (later date_body date_doc), (later date_sig date_doc);
      reflexivity.
  - destruct (later date_sig date_doc); reflexivity.
Qed.

(** A comparison of the sentinel with an aware timestamp raises, whichever
    of the two conditions meets it first. *)
Lemma perform_checks_mixed (date_sig date_doc date_body : datetime)
      (hash_sig : string) :
  is_aware date_sig <> is_aware date_doc ->
  perform_checks date_sig hash_sig date_doc date_body = Raise TypeError.
Proof.
  intro H. unfold perform_checks.
  destruct (datetime_gt date_body date_sig) as [c1|e] eqn:E1; cbn [bind].
  - destruct c1.
    + destruct (Bool.bool_dec (is_aware date_body) (is_aware date_doc)) as [E|E].
      * assert (is_aware date_body <> is_aware date_sig) by congruence.
        rewrite datetime_gt_mixed in E1 by assumption. discriminate E1.
      * rewrite (datetime_gt_mixed date_body date_doc) by assumption.
        reflexivity.
    + cbn [bind]. rewrite (datetime_gt_mixed date_sig date_doc) by assumption.
      reflexivity.
  - destruct e. reflexivity.
Qed.

(** X18: when the three latest timestamps can be compared (all with an
    offset, or all without), [check_function_consistency] returns the
    warning of rule A exactly when the body's timestamp is strictly later
    than the signature's and strictly later than the doc comment's, and
    the warning of rule B exactly when the signature's timestamp is
    strictly later than the doc comment's; both may be returned, A first;
    equal timestamps fire no rule; and the text of each warning ends with
    the hash of the signature's latest revision between brackets. *)
Theorem consistency_rules
        (tree : node) (git_log_L : Z -> Z -> run_outcome)
        (strptime : string -> option datetime) (name : string)
        (date_sig date_doc date_body : datetime)
        (hash_sig hash_doc hash_body : string) :
  _get_latest_commit_info strptime
    (parse_git_log_to_dict (get_git_history_signature tree git_log_L name))
  = Ok (date_sig, hash_sig) ->
  _get_latest_commit_info strptime
    (parse_git_log_to_dict (get_git_history_docstring tree git_log_L name))
  = Ok (date_doc, hash_doc) ->
  _get_latest_commit_info strptime
    (parse_git_log_to_dict (get_git_history_body tree git_log_L name))
  = Ok (date_body, hash_body) ->
  is_aware date_sig = is_aware date_doc ->
  is_aware date_body = is_aware date_sig ->
  exists warnings,
    check_function_consistency tree git_log_L strptime name = Ok warnings
    /\ warnings
       = (if later date_body date_sig && later date_body date_doc
          then [warning_A hash_sig] else [])
         ++ (if later date_sig date_doc then [warning_B hash_sig] else [])
    /\ (In (warning_A hash_sig) warnings
        <-> later date_body date_sig = true /\ later date_body date_doc = true)
    /\ (In (warning_B hash_sig) warnings <-> later date_sig date_doc = true)
    /\ (date_body = date_sig \/ date_body = date_doc ->
        ~ In (warning_A hash_sig) warnings)
    /\ (date_sig = date_doc -> ~ In (warning_B hash_sig) warnings)
    /\ (forall w, In w warnings ->
        w = ("Check the docstring or function, as the body was updated. "
             ++ "(Body commit: " ++ hash_sig ++ ")")%string
        \/ w = ("Check the docstring, as the signature was updated. "
                ++ "(Signature commit: " ++ hash_sig ++ ")")%string).
Proof.
  intros Hs Hd Hb K1 K2. eexists. split.
  - unfold check_function_consistency. cbv zeta. rewrite Hs, Hd, Hb.
    cbn [bind]. apply perform_checks_same_kind; assumption.
  - pose proof (warning_A_not_B hash_sig hash_sig) as NE.
    assert (IA : In (warning_A hash_sig)
                   ((if later date_body date_sig && later date_body date_doc
                     then [warning_A hash_sig] else [])
                    ++ (if later date_sig date_doc
                        then [warning_B hash_sig] else []))
                 <-> later date_body date_sig = true
                     /\ later date_body date_doc = true).
    { rewrite in_app_iff, <- andb_true_iff.
      destruct (later date_body date_sig && later date_body date_doc),
               (later date_sig date_doc); cbn; intuition congruence. }
    assert (IB : In (warning_B hash_sig)
                   ((if later date_body date_sig && later date_body date_doc
                     then [warning_A hash_sig] else [])
                    ++ (if later date_sig date_doc
                        then [warning_B hash_sig] else []))
                 <-> later date_sig date_doc = true).
    { rewrite in_app_iff.
      destruct (later date_body date_sig && later date_body date_doc),
               (later date_sig date_doc); cbn; intuition congruence. }
    split; [reflexivity|]. split; [exact IA|]. split; [exact IB|].
    split; [|split].
    + intros [-> | ->] Hin; apply IA in Hin; destruct Hin as [Ha Hb'];
        rewrite later_irrefl in *; discriminate.
    + intros -> Hin. apply IB in Hin. rewrite later_irrefl in Hin.
      discriminate.
    + intros w Hin. apply in_app_or in Hin.
      destruct (later date_body date_sig && later date_body date_doc),
               (later date_sig date_doc); cbn [In] in Hin;
        intuition (subst; auto).
Qed.

Lemma consistency_rules_witness :
  exists warnings,
    check_function_consistency calculate_tree calculate_git strptime_git
                               "calculate" = Ok warnings
    /\ warnings = [warning_A hash_2].
Proof.
  destruct (consistency_rules calculate_tree calculate_git strptime_git
              "calculate"
              (Aware 63903759832000000 3600000000)
              (Aware 63903759833000000 3600000000)
              (Aware 63903759834000000 3600000000)
              hash_2 hash_3 hash_4)
    as [ws [H1 [H2 _]]];
    try (vm_compute; reflexivity).
  exists ws. split; [exact H1 | rewrite H2; reflexivity].
Defined.

(** C1: the definition [h] of [plain_tree] has no docstring, so its doc
    history is empty and its doc timestamp is the naive sentinel, while
    its signature and body have a revision whose date parses to an aware
    timestamp; [check_function_consistency] then raises TypeError at the
    comparison instead of returning warnings. *)
Theorem consistency_check_raises_without_docstring :
  get_docstring_lines plain_tree "h" = []
  /\ _get_latest_commit_info strptime_git
       (parse_git_log_to_dict (get_git_history_docstring plain_tree plain_git "h"))
     = Ok (datetime_min, EmptyString)
  /\ _get_latest_commit_info strptime_git
       (parse_git_log_to_dict (get_git_history_signature plain_tree plain_git "h"))
     = Ok (Aware 63903759831000000 3600000000, hash_1)
  /\ check_function_consistency plain_tree plain_git strptime_git "h"
     = Raise TypeError.
Proof. repeat split; vm_compute; reflexivity. Qed.


(** C5: the definition [f] of [docstring_only_tree] has a docstring and
    no other statement, so no range is asked for its body and the body
    timestamp is the sentinel; its signature was changed after its
    docstring, so the signature's timestamp is strictly later than the
    doc comment's and rule B applies.  [check_function_consistency] does
    not return the warning of rule B: the first comparison, of the
    sentinel with the signature's timestamp, raises TypeError. *)
Theorem rule_B_lost_to_type_error :
  get_signature_lines docstring_only_tree "f" = [(1, 1)]
  /\ get_docstring_lines docstring_only_tree "f" = [(2, 2)]
  /\ get_git_history_body_ranges docstring_only_tree "f" = []
  /\ _get_latest_commit_info strptime_git
       (parse_git_log_to_dict
          (get_git_history_signature docstring_only_tree docstring_only_git "f"))
     = Ok (Aware 63903759832000000 3600000000, hash_2)
  /\ _get_latest_commit_info strptime_git
       (parse_git_log_to_dict
          (get_git_history_docstring docstring_only_tree docstring_only_git "f"))
     = Ok (Aware 63903759831000000 3600000000, hash_1)
  /\ _get_latest_commit_info strptime_git
       (parse_git_log_to_dict
          (get_git_history_body docstring_only_tree docstring_only_git "f"))
     = Ok (datetime_min, EmptyString)
  /\ later (Aware 63903759832000000 3600000000)
           (Aware 63903759831000000 3600000000) = true
  /\ check_function_consistency docstring_only_tree docstring_only_git
                                strptime_git "f"
     = Raise TypeError.
Proof. repeat split; vm_compute; reflexivity. Qed.

(** ** Strings *)

Lemma append_nil_r (s : string) : (s ++ EmptyString)%string = s.
Proof. induction s as [|c s IH]; cbn; [reflexivity | now rewrite IH]. Qed.

Lemma append_assoc (a b c : string) :
  ((a ++ b) ++ c)%string = (a ++ (b ++ c))%string.
Proof. induction a as [|x a IH]; cbn; [reflexivity | now rewrite IH]. Qed.

Lemma string_forall_app (p : ascii -> bool) (a b : string) :
  string_forall p (a ++ b) = string_forall p a && string_forall p b.
Proof.
  induction a as [|x a IH]; cbn; [reflexivity|].
  rewrite IH. now rewrite andb_assoc.
Qed.

Lemma string_forall_impl (p q : ascii -> bool) (s : string) :
  (forall c, p c = true -> q c = true) ->
  string_forall p s = true -> string_forall q s = true.
Proof.
  intro H. induction s as [|c s IH]; cbn; [reflexivity|].
  rewrite !andb_true_iff. intros [Hc Hs]. split; auto.
Qed.

Lemma is_linebreak_newline : is_linebreak newline = true.
Proof. reflexivity. Qed.

Lemma linebreak_is_space (c : ascii) : is_linebreak c = true -> is_space c = true.
Proof.
  unfold is_linebreak, is_space. generalize (code c). intro k.
  rewrite !orb_true_iff, !andb_true_iff, !N.leb_le, !N.eqb_eq. lia.
Qed.

Lemma no_linebreak_is_dot (s : string) :
  no_linebreak s = true -> string_forall is_dot s = true.
Proof.
  apply string_forall_impl. intros c Hc. unfold is_dot.
  destruct (Ascii.eqb_spec c newline) as [-> | _]; [discriminate Hc | reflexivity].
Qed.

(** *** [splitlines] on a text of lines *)

Lemma splitlines_from_line (l cur s : string) :
  no_linebreak l = true ->
  splitlines_from cur (l ++ s) = splitlines_from (cur ++ l) s.
Proof.
  revert cur. induction l as [|c l IH]; intros cur Hl.
  - cbn. now rewrite append_nil_r.
  - cbn in Hl. apply andb_true_iff in Hl. destruct Hl as [Hc Hl].
    apply negb_true_iff in Hc. cbn. rewrite Hc, IH by assumption.
    rewrite append_assoc. reflexivity.
Qed.

Lemma splitlines_from_nl (cur s : string) :
  splitlines_from cur (nl ++ s) = cur :: splitlines_from EmptyString s.
Proof. destruct s; reflexivity. Qed.

Lemma splitlines_unlines (ls : list string) :
  forallb no_linebreak ls = true -> splitlines (unlines ls) = ls.
Proof.
  unfold splitlines. induction ls as [|l ls IH]; cbn [unlines forallb].
  - reflexivity.
  - rewrite andb_true_iff. intros [Hl Hls].
    rewrite splitlines_from_line by assumption.
    rewrite splitlines_from_nl, IH by assumption. reflexivity.
Qed.

(** *** [split] and [join] on newlines *)

Lemma join_cons (l : string) (ls : list string) :
  ls <> [] -> join nl (l :: ls) = (l ++ nl ++ join nl ls)%string.
Proof. destruct ls; [congruence | reflexivity]. Qed.

Lemma join_app (x y : list string) :
  x <> [] -> y <> [] ->
  join nl (x ++ y) = (join nl x ++ nl ++ join nl y)%string.
Proof.
  intros Hx Hy. induction x as [|a x IH]; [congruence|].
  destruct x as [|b x].
  - cbn [app]. now rewrite join_cons.
  - change ((a :: b :: x) ++ y) with (a :: (b :: x) ++ y).
    rewrite (join_cons a ((b :: x) ++ y)) by (cbn [app]; congruence).
    rewrite (join_cons a (b :: x)) by congruence.
    rewrite IH by congruence.
    now rewrite !append_assoc.
Qed.

Lemma split_on_line (l cur s : string) :
  string_forall is_dot l = true ->
  split_on newline cur (l ++ s) = split_on newline (cur ++ l) s.
Proof.
  revert cur. induction l as [|c l IH]; intros cur Hl.
  - cbn. now rewrite append_nil_r.
  - cbn [string_forall] in Hl. apply andb_true_iff in Hl.
    destruct Hl as [Hc Hl].
    unfold is_dot in Hc. apply negb_true_iff in Hc.
    cbn [append split_on]. rewrite Hc, IH by assumption.
    rewrite append_assoc. reflexivity.
Qed.

Lemma split_nl_join (ls : list string) :
  ls <> [] -> forallb (string_forall is_dot) ls = true ->
  split_nl (join nl ls) = ls.
Proof.
  unfold split_nl. induction ls as [|l ls IH]; [congruence|].
  intros _. cbn [forallb]. rewrite andb_true_iff. intros [Hl Hls].
  destruct ls as [|l' ls].
  - cbn [join String.concat]. rewrite <- (append_nil_r l) at 1.
    rewrite split_on_line by assumption. reflexivity.
  - rewrite join_cons by congruence.
    rewrite split_on_line by assumption. cbn [append nl].
    cbn [split_on]. rewrite Ascii.eqb_refl. f_equal.
    apply IH; [congruence | assumption].
Qed.

Lemma split_on_nonempty (cur s : string) : split_on newline cur s <> [].
Proof.
  revert cur. induction s as [|c s IH]; intro cur; cbn [split_on];
    [congruence|].
  destruct (Ascii.eqb c newline); [congruence | apply IH].
Qed.

Lemma join_split_on (cur s : string) :
  join nl (split_on newline cur s) = (cur ++ s)%string.
Proof.
  revert cur. induction s as [|c s IH]; intro cur; cbn [split_on].
  - cbn. now rewrite append_nil_r.
  - destruct (Ascii.eqb_spec c newline) as [-> | Hc].
    + rewrite join_cons by apply split_on_nonempty.
      rewrite IH. reflexivity.
    + rewrite IH, append_assoc. reflexivity.
Qed.

Lemma join_split_nl (s : string) : join nl (split_nl s) = s.
Proof. unfold split_nl. now rewrite join_split_on. Qed.

Lemma split_on_no_linebreak (cur s : string) :
  no_linebreak cur = true ->
  string_forall line_or_newline s = true ->
  forallb no_linebreak (split_on newline cur s) = true.
Proof.
  revert cur. induction s as [|c s IH]; intros cur Hcur Hs; cbn [split_on].
  - cbn. now rewrite Hcur.
  - cbn in Hs. apply andb_true_iff in Hs. destruct Hs as [Hc Hs].
    destruct (Ascii.eqb_spec c newline) as [-> | Hn].
    + cbn [forallb]. rewrite Hcur. cbn. now apply IH.
    + apply IH; [|assumption].
      unfold no_linebreak. rewrite string_forall_app. fold (no_linebreak cur).
      rewrite Hcur. cbn. unfold line_or_newline in Hc.
      apply orb_true_iff in Hc. destruct Hc as [Hc | Hc]; [now rewrite Hc|].
      apply Ascii.eqb_eq in Hc. contradiction.
Qed.

Lemma join_line_or_newline (ls : list string) :
  forallb no_linebreak ls = true ->
  string_forall line_or_newline (join nl ls) = true.
Proof.
  induction ls as [|l ls IH]; [reflexivity|].
  cbn [forallb]. rewrite andb_true_iff. intros [Hl Hls].
  assert (Hl' : string_forall line_or_newline l = true).
  { revert Hl. apply string_forall_impl. intros c Hc.
    unfold line_or_newline. now rewrite Hc. }
  destruct ls as [|l' ls]; [exact Hl'|].
  rewrite join_cons by congruence.
  rewrite !string_forall_app, Hl', IH by assumption. reflexivity.
Qed.

(** *** [strip] *)

Lemma lstrip_forall (p : ascii -> bool) (s : string) :
  string_forall p s = true -> string_forall p (lstrip s) = true.
Proof.
  induction s as [|c s IH]; cbn; [reflexivity|].
  rewrite andb_true_iff. intros [Hc Hs].
  destruct (is_space c); [auto | cbn; now rewrite Hc, Hs].
Qed.

Lemma rstrip_forall (p : ascii -> bool) (s : string) :
  string_forall p s = true -> string_forall p (rstrip s) = true.
Proof.
  induction s as [|c s IH]; cbn; [reflexivity|].
  rewrite andb_true_iff. intros [Hc Hs]. specialize (IH Hs).
  destruct (rstrip s) as [|c' r].
  - destruct (is_space c); cbn; [reflexivity | now rewrite Hc].
  - cbn [string_forall] in IH |- *. now rewrite Hc, IH.
Qed.

Lemma strip_forall (p : ascii -> bool) (s : string) :
  string_forall p s = true -> string_forall p (strip s) = true.
Proof. intro H. unfold strip. now apply rstrip_forall, lstrip_forall. Qed.

Lemma lstrip_idem (s : string) : lstrip (lstrip s) = lstrip s.
Proof.
  induction s as [|c s IH]; cbn; [reflexivity|].
  destruct (is_space c) eqn:E; [exact IH | cbn; now rewrite E].
Qed.

Lemma rstrip_idem (s : string) : rstrip (rstrip s) = rstrip s.
Proof.
  induction s as [|c s IH]; cbn; [reflexivity|].
  destruct (rstrip s) as [|c' r] eqn:E.
  - destruct (is_space c) eqn:Ec; cbn; [reflexivity | now rewrite Ec].
  - cbn [rstrip] in IH |- *. fold rstrip in IH |- *.
    change (rstrip (String c (String c' r))) with
      (match rstrip (String c' r) with
       | EmptyString => if is_space c then EmptyString else String c EmptyString
       | r' => String c r'
       end).
    rewrite IH. reflexivity.
Qed.

(** Trimming the end of a string keeps a start that is not a space. *)
Lemma lstrip_rstrip (s : string) :
  lstrip s = s -> lstrip (rstrip s) = rstrip s.
Proof.
  destruct s as [|c s]; [reflexivity|].
  cbn [lstrip]. destruct (is_space c) eqn:Ec.
  - intro H. exfalso.
    assert (L : forall t, (String.length (lstrip t) <= String.length t)%nat).
    { induction t as [|x t IHt]; cbn; [lia|]. destruct (is_space x); cbn; lia. }
    specialize (L s). rewrite H in L. cbn in L. lia.
  - intros _. cbn [rstrip].
    destruct (rstrip s); [rewrite Ec|]; cbn [lstrip]; now rewrite Ec.
Qed.

Lemma strip_idem (s : string) : strip (strip s) = strip s.
Proof.
  unfold strip. rewrite (lstrip_rstrip (lstrip s)) by apply lstrip_idem.
  apply rstrip_idem.
Qed.

Lemma trimmed_spec (s : string) :
  trimmed s = true -> s <> EmptyString /\ lstrip s = s /\ rstrip s = s.
Proof.
  unfold trimmed. rewrite !andb_true_iff, negb_true_iff.
  rewrite String.eqb_neq, !String.eqb_eq. tauto.
Qed.

Lemma trimmed_strip (s : string) : trimmed s = true -> strip s = s.
Proof.
  intro H. apply trimmed_spec in H. destruct H as [_ [Hl Hr]].
  unfold strip. now rewrite Hl.
Qed.

(** A trimmed string starts with a character that is not a space. *)
Lemma trimmed_head (s : string) :
  trimmed s = true ->
  exists c s', s = String c s' /\ is_space c = false.
Proof.
  intro H. apply trimmed_spec in H. destruct H as [Hne [Hl _]].
  destruct s as [|c s']; [congruence|]. exists c, s'. split; [reflexivity|].
  cbn in Hl. destruct (is_space c) eqn:Ec; [|reflexivity].
  exfalso.
  assert (L : forall t, (String.length (lstrip t) <= String.length t)%nat).
  { induction t as [|x t IHt]; cbn; [lia|]. destruct (is_space x); cbn; lia. }
  specialize (L s'). rewrite Hl in L. cbn in L. lia.
Qed.

Lemma rstrip_spaces (t : string) :
  string_forall is_space t = true -> rstrip t = EmptyString.
Proof.
  induction t as [|c t IH]; [reflexivity|].
  cbn [string_forall]. rewrite andb_true_iff. intros [Hc Ht].
  cbn [rstrip]. now rewrite IH, Hc.
Qed.

Lemma rstrip_app_spaces (s t : string) :
  string_forall is_space t = true -> rstrip (s ++ t) = rstrip s.
Proof.
  intro Ht. induction s as [|c s IH].
  - cbn [append rstrip]. now apply rstrip_spaces.
  - cbn [append rstrip]. now rewrite IH.
Qed.

Lemma rstrip_not_spaces (t : string) :
  string_forall is_space t = false -> rstrip t <> EmptyString.
Proof.
  induction t as [|c t IH]; [discriminate|].
  cbn [string_forall rstrip]. intro H.
  destruct (rstrip t) as [|c' r] eqn:E; [|discriminate].
  destruct (is_space c) eqn:Hc; [|discriminate].
  cbn [andb] in H. elim (IH H). reflexivity.
Qed.

Lemma rstrip_app_word (s t : string) :
  string_forall is_space t = false -> rstrip (s ++ t) = (s ++ rstrip t)%string.
Proof.
  intro Ht. pose proof (rstrip_not_spaces t Ht) as N.
  induction s as [|c s IH]; [reflexivity|].
  cbn [append rstrip]. rewrite IH.
  destruct (s ++ rstrip t)%string as [|c' r] eqn:E; [|reflexivity].
  destruct s; [cbn [append] in E; contradiction | discriminate E].
Qed.

Lemma lstrip_app_spaces (s t : string) :
  string_forall is_space s = true -> lstrip (s ++ t) = lstrip t.
Proof.
  induction s as [|c s IH]; [reflexivity|].
  cbn [string_forall]. rewrite andb_true_iff. intros [Hc Hs].
  cbn [append lstrip]. rewrite Hc. now apply IH.
Qed.

Lemma lstrip_app_word (s t : string) :
  string_forall is_space s = false -> lstrip (s ++ t) = (lstrip s ++ t)%string.
Proof.
  induction s as [|c s IH]; [discriminate|].
  cbn [string_forall append lstrip]. destruct (is_space c); [|reflexivity].
  cbn [andb]. exact IH.
Qed.

(** The text between two empty lines, behind an indentation, is read
    back by [strip] when it has no space at its ends. *)
Lemma strip_block (m : string) :
  stripped m = true ->
  strip (nl ++ indent m ++ nl) = m.
Proof.
  unfold stripped. rewrite andb_true_iff, !String.eqb_eq. intros [Hl Hr].
  unfold strip, indent.
  change (lstrip (nl ++ ("    " ++ m) ++ nl)) with (lstrip (m ++ nl)).
  destruct m as [|c m']; [reflexivity|].
  cbn [lstrip] in Hl. destruct (is_space c) eqn:Hc.
  - exfalso.
    assert (L : forall t, (String.length (lstrip t) <= String.length t)%nat).
    { induction t as [|x t IHt]; cbn; [lia|]. destruct (is_space x); cbn; lia. }
    specialize (L m'). rewrite Hl in L. cbn in L. lia.
  - cbn [append lstrip]. rewrite Hc.
    change (String c (m' ++ nl)) with (String c m' ++ nl)%string.
    rewrite rstrip_app_spaces by reflexivity. exact Hr.
Qed.

Lemma strip_stripped (s : string) : stripped (strip s) = true.
Proof.
  unfold stripped, strip.
  rewrite (lstrip_rstrip (lstrip s)) by apply lstrip_idem.
  rewrite rstrip_idem, !String.eqb_refl. reflexivity.
Qed.

(** *** The lines of a trimmed text *)

Lemma lstrip_join (ls : list string) :
  ls <> [] ->
  exists pre l0 rest,
    ls = pre ++ l0 :: rest
    /\ lstrip (join nl ls) = join nl (lstrip l0 :: rest).
Proof.
  induction ls as [|l ls IH]; [congruence|]. intros _.
  destruct ls as [|l2 ls].
  - exists [], l, []. split; reflexivity.
  - rewrite join_cons by congruence.
    destruct (string_forall is_space l) eqn:E.
    + destruct IH as [pre [l0 [rest [Hls Hj]]]]; [congruence|].
      exists (l :: pre), l0, rest. split; [cbn [app]; now rewrite Hls|].
      rewrite lstrip_app_spaces by exact E.
      change (lstrip (nl ++ join nl (l2 :: ls)))
        with (lstrip (join nl (l2 :: ls))).
      exact Hj.
    + exists [], l, (l2 :: ls). split; [reflexivity|].
      rewrite lstrip_app_word by exact E.
      now rewrite (join_cons (lstrip l)) by congruence.
Qed.

Lemma rstrip_join (ls : list string) :
  ls <> [] ->
  exists init l0 post,
    ls = init ++ l0 :: post
    /\ rstrip (join nl ls) = join nl (init ++ [rstrip l0]).
Proof.
  induction ls as [|l ls IH]; [congruence|]. intros _.
  destruct ls as [|l2 ls].
  - exists [], l, []. split; reflexivity.
  - rewrite join_cons by congruence.
    destruct (string_forall is_space (join nl (l2 :: ls))) eqn:E.
    + exists [], l, (l2 :: ls). split; [reflexivity|].
      rewrite rstrip_app_spaces; [reflexivity|].
      rewrite string_forall_app, E. reflexivity.
    + destruct IH as [init [l0 [post [Hls Hj]]]]; [congruence|].
      exists (l :: init), l0, post. split; [cbn [app]; now rewrite Hls|].
      rewrite rstrip_app_word
        by (rewrite string_forall_app, E; apply andb_false_r).
      rewrite (rstrip_app_word nl) by exact E.
      rewrite Hj. cbn [app].
      rewrite (join_cons l) by (destruct init; discriminate).
      reflexivity.
Qed.

Lemma starts_blank_rstrip (l : string) :
  starts_blank l = true -> starts_blank (rstrip l) = true.
Proof.
  destruct l as [|c l]; [reflexivity|]. cbn [starts_blank rstrip]. intro H.
  destruct (rstrip l); [rewrite H|]; cbn [starts_blank]; auto.
Qed.

(** The lines of [strip] of a text of lines: the first is a piece of a
    line of the text, the others are lines of the text, the last one
    trimmed at its end. *)
Lemma strip_join_lines (ls : list string) :
  ls <> [] ->
  forallb no_linebreak ls = true ->
  forallb starts_blank ls = true ->
  exists first others,
    strip (join nl ls) = join nl (first :: others)
    /\ no_linebreak first = true
    /\ forallb no_linebreak others = true
    /\ forallb starts_blank others = true.
Proof.
  intros N Hl Hb. unfold strip.
  destruct (lstrip_join ls N) as [pre [l0 [rest [-> ->]]]].
  rewrite !forallb_app in Hl, Hb. cbn [forallb] in Hl, Hb.
  rewrite !andb_true_iff in Hl, Hb.
  destruct Hl as [_ [Hl0 Hlr]]. destruct Hb as [_ [_ Hbr]].
  destruct (rstrip_join (lstrip l0 :: rest)) as [init [l1 [post [E ->]]]];
    [discriminate|].
  destruct init as [|i0 init].
  - cbn [app] in E |- *. injection E as <- _.
    exists (rstrip (lstrip l0)), []. repeat split.
    unfold no_linebreak. apply rstrip_forall, lstrip_forall. exact Hl0.
  - cbn [app] in E |- *. injection E as <- ->.
    rewrite !forallb_app in Hlr, Hbr. cbn [forallb] in Hlr, Hbr.
    rewrite !andb_true_iff in Hlr, Hbr.
    destruct Hlr as [Hli [Hl1 _]]. destruct Hbr as [Hbi [Hb1 _]].
    exists (lstrip l0), (init ++ [rstrip l1]). split; [reflexivity|].
    split; [unfold no_linebreak; apply lstrip_forall; exact Hl0|].
    assert (R1 : no_linebreak (rstrip l1) = true)
      by (apply rstrip_forall; exact Hl1).
    rewrite !forallb_app. cbn [forallb].
    rewrite Hli, Hbi, R1, (starts_blank_rstrip l1 Hb1).
    split; reflexivity.
Qed.

(** ** The patterns on the lines of a history *)

Section MatcherFacts.

Context {R : Type}.

Lemma lit_append (l s : string) (k : string -> option R) :
  lit l (l ++ s) k = k s.
Proof.
  induction l as [|a l IH]; cbn [lit append]; [reflexivity|].
  now rewrite Ascii.eqb_refl.
Qed.

(** A text that does not start with a character of the class. *)
Lemma greedy_plus_head (p : ascii -> bool) (c : ascii) (s : string)
      (k : string -> string -> option R) :
  p c = false -> greedy_plus p (String c s) k = None.
Proof. intro H. cbn [greedy_plus]. now rewrite H. Qed.

(** The greedy [+] stops after [a] when no longer stop succeeds. *)
Lemma greedy_plus_split (p : ascii -> bool) (a b : string)
      (k : string -> string -> option R) (x : R) :
  a <> EmptyString ->
  string_forall p a = true ->
  greedy_plus p b (fun g r => k (a ++ g)%string r) = None ->
  k a b = Some x ->
  greedy_plus p (a ++ b) k = Some x.
Proof.
  revert k. induction a as [|c a IH]; intros k Hne Ha Hlong Hk; [congruence|].
  cbn [string_forall] in Ha. apply andb_true_iff in Ha. destruct Ha as [Hc Ha].
  cbn [append greedy_plus]. rewrite Hc.
  destruct a as [|c' a'].
  - cbn [append] in Hlong |- *. rewrite Hlong. exact Hk.
  - rewrite (IH (fun g r => k (String c g) r)); try assumption;
      [reflexivity | congruence].
Qed.

(** The greedy [+] fails when its continuation fails after every stop. *)
Lemma greedy_plus_fails (p : ascii -> bool) (s : string)
      (k : string -> string -> option R) :
  (forall g r, g <> EmptyString -> s = (g ++ r)%string -> k g r = None) ->
  greedy_plus p s k = None.
Proof.
  revert k. induction s as [|c s IH]; intros k H; [reflexivity|].
  cbn [greedy_plus]. destruct (p c); [|reflexivity].
  rewrite IH.
  - apply H; [congruence | reflexivity].
  - intros g r Hg ->. apply H; [congruence | reflexivity].
Qed.

Lemma exactly_all (p : ascii -> bool) (a r : string)
      (k : string -> string -> option R) :
  string_forall p a = true ->
  exactly (String.length a) p (a ++ r) k = k a r.
Proof.
  revert k. induction a as [|c a IH]; intros k Ha; [reflexivity|].
  cbn [string_forall] in Ha. apply andb_true_iff in Ha. destruct Ha as [Hc Ha].
  cbn [String.length append exactly]. rewrite Hc.
  now rewrite IH.
Qed.

End MatcherFacts.

Lemma hex_not_space (c : ascii) : is_hex c = true -> is_space c = false.
Proof.
  unfold is_hex, is_space. generalize (code c). intro k.
  rewrite !orb_true_iff, !andb_true_iff, !N.leb_le.
  intro H. apply not_true_is_false.
  rewrite !orb_true_iff, !andb_true_iff, !N.leb_le, !N.eqb_eq. lia.
Qed.

Lemma is_hash_spec (h : string) :
  is_hash h = true -> String.length h = 40%nat /\ string_forall is_hex h = true.
Proof. unfold is_hash. rewrite andb_true_iff, Nat.eqb_eq. tauto. Qed.

Lemma hash_not_empty (h : string) : is_hash h = true -> h <> EmptyString.
Proof. intros H ->. discriminate H. Qed.

Lemma commit_pattern_commit_line (h : string) :
  is_hash h = true -> commit_pattern (commit_line h) = Some h.
Proof.
  intro H. destruct (is_hash_spec h H) as [Hlen Hhex].
  unfold commit_pattern, commit_line.
  change ("commit " ++ h)%string with ("commit" ++ String " " h)%string.
  rewrite lit_append. cbn [greedy_plus].
  change (is_space " ") with true. cbv iota.
  destruct h as [|c h']; [discriminate Hlen|].
  rewrite greedy_plus_head
    by (apply hex_not_space; cbn in Hhex; apply andb_true_iff in Hhex; tauto).
  rewrite <- (append_nil_r (String c h')) at 1.
  change 40%nat with (String.length (String c h')) at 1 || rewrite <- Hlen.
  now rewrite exactly_all.
Qed.

(** No run of spaces starts a text that starts with a trimmed string. *)
Lemma trimmed_app_no_space {R : Type} (a b : string)
      (k : string -> string -> option R) :
  trimmed a = true -> greedy_plus is_space (a ++ b) k = None.
Proof.
  intro T. destruct (trimmed_head a T) as [c [a' [-> Hc]]].
  cbn [append]. now apply greedy_plus_head.
Qed.

Lemma author_pattern_author_line (name email : string) :
  trimmed name = true -> no_linebreak name = true ->
  trimmed email = true -> no_linebreak email = true ->
  string_forall (fun c => negb (Ascii.eqb c "<")) email = true ->
  author_pattern (author_line name email) = Some (name, email).
Proof.
  intros Tn Ln Te Le Lt.
  pose proof (trimmed_spec name Tn) as [Nn _].
  pose proof (trimmed_spec email Te) as [Ne _].
  unfold author_pattern, author_line.
  change ("Author: " ++ name ++ " <" ++ email ++ ">")%string
    with ("Author:" ++ String " " (name ++ " <" ++ email ++ ">"))%string.
  rewrite lit_append. cbn [greedy_plus].
  change (is_space " ") with true. cbv iota.
  rewrite (trimmed_app_no_space name) by exact Tn.
  apply greedy_plus_split.
  - exact Nn.
  - now apply no_linebreak_is_dot.
  - (* no longer first group *)
    apply greedy_plus_fails. intros g r Hg Hsplit.
    destruct g as [|c1 g1]; [congruence|].
    cbn [append] in Hsplit. injection Hsplit as <- Hsplit.
    destruct g1 as [|c2 g2].
    + cbn [append] in Hsplit. subst r. now apply greedy_plus_head.
    + cbn [append] in Hsplit. injection Hsplit as <- Hsplit.
      assert (Hr : string_forall (fun c => negb (Ascii.eqb c "<")) r = true).
      { assert (H : string_forall (fun c => negb (Ascii.eqb c "<"))
                      (email ++ ">") = true)
          by (rewrite string_forall_app, Lt; reflexivity).
        rewrite Hsplit, string_forall_app in H.
        apply andb_true_iff in H. tauto. }
      apply greedy_plus_fails. intros g3 r3 _ ->.
      rewrite string_forall_app in Hr. apply andb_true_iff in Hr.
      destruct Hr as [_ Hr3].
      destruct r3 as [|c3 r3']; [reflexivity|].
      cbn [string_forall] in Hr3. apply andb_true_iff in Hr3.
      destruct Hr3 as [Hc3 _]. apply negb_true_iff in Hc3.
      cbn [lit]. rewrite Ascii.eqb_sym, Hc3. reflexivity.
  - (* the rest after the first group *)
    cbn [append greedy_plus]. change (is_space " ") with true.
    change (is_space "<") with false. cbv iota.
    cbn [lit]. change (Ascii.eqb "<" "<") with true. cbv iota.
    apply greedy_plus_split.
    + exact Ne.
    + now apply no_linebreak_is_dot.
    + reflexivity.
    + reflexivity.
Qed.

Lemma date_pattern_date_line (d : string) :
  trimmed d = true -> no_linebreak d = true ->
  date_pattern (date_line d) = Some d.
Proof.
  intros Td Ld.
  destruct (trimmed_head d Td) as [c [d' [Ed Hc]]].
  pose proof (trimmed_spec d Td) as [Nd _].
  unfold date_pattern, date_line.
  change ("Date:   " ++ d)%string with ("Date:" ++ ("   " ++ d))%string.
  rewrite lit_append.
  apply greedy_plus_split.
  - discriminate.
  - reflexivity.
  - rewrite Ed. now apply greedy_plus_head.
  - rewrite <- (append_nil_r d) at 1.
    apply greedy_plus_split.
    + exact Nd.
    + now apply no_linebreak_is_dot.
    + reflexivity.
    + reflexivity.
Qed.

(** ** The parser on the lines of a revision *)

Lemma not_marker (l : string) : is_marker l = false -> commit_pattern l = None.
Proof. unfold is_marker. destruct (commit_pattern l); [discriminate | reflexivity]. Qed.

Lemma parse_line_marker (p : parser) (h : string) :
  is_hash h = true ->
  parse_line p (commit_line h) = mkParser (flush p) (Some h) (Some new_data) HEADER.
Proof.
  intro H. unfold parse_line. now rewrite commit_pattern_commit_line.
Qed.

Section OpenRevision.

(** The parser while it reads the revision [h]. *)
Variables (D : commits_dict) (h : string).
Variables (a e dt : option string) (m df : list string).

Lemma parse_line_author (name email : string) :
  trimmed name = true -> no_linebreak name = true ->
  trimmed email = true -> no_linebreak email = true ->
  string_forall (fun c => negb (Ascii.eqb c "<")) email = true ->
  parse_line (mkParser D (Some h) (Some (mkData a e dt m df)) HEADER)
             (author_line name email)
  = mkParser D (Some h) (Some (mkData (Some name) (Some email) dt m df)) HEADER.
Proof.
  intros Tn Ln Te Le Lt. unfold parse_line.
  change (commit_pattern (author_line name email)) with (@None string).
  cbn [current_hash current_data state commits].
  rewrite author_pattern_author_line by assumption.
  unfold set_author. cbn [data_date data_message data_diff].
  now rewrite !trimmed_strip.
Qed.

Lemma parse_line_date (d : string) :
  trimmed d = true -> no_linebreak d = true ->
  parse_line (mkParser D (Some h) (Some (mkData a e dt m df)) HEADER)
             (date_line d)
  = mkParser D (Some h) (Some (mkData a e (Some d) m df)) MESSAGE.
Proof.
  intros Td Ld. unfold parse_line.
  change (commit_pattern (date_line d)) with (@None string).
  cbn [current_hash current_data state commits].
  change (author_pattern (date_line d)) with (@None (string * string)).
  rewrite date_pattern_date_line by assumption.
  unfold set_date. cbn [data_author_name data_author_email data_message data_diff].
  now rewrite trimmed_strip.
Qed.

Lemma parse_line_diff_start (line : string) :
  is_marker line = false -> diff_start_pattern line = true ->
  parse_line (mkParser D (Some h) (Some (mkData a e dt m df)) MESSAGE) line
  = mkParser D (Some h) (Some (mkData a e dt m (df ++ [line]))) DIFF.
Proof.
  intros Hm Hd. unfold parse_line. rewrite (not_marker line Hm).
  cbn [current_hash current_data state commits]. now rewrite Hd.
Qed.

End OpenRevision.

(** In the MESSAGE state every line that is neither a revision marker nor
    the start of a diff goes to the message. *)
Lemma parse_lines_message (lines : list string) :
  forall (D : commits_dict) (h : string) (a e dt : option string)
         (m df : list string),
  forallb (fun l => negb (is_marker l) && negb (diff_start_pattern l)) lines
  = true ->
  parse_lines (mkParser D (Some h) (Some (mkData a e dt m df)) MESSAGE) lines
  = mkParser D (Some h) (Some (mkData a e dt (m ++ lines) df)) MESSAGE.
Proof.
  induction lines as [|l ls IH]; intros D h a e dt m df H.
  - cbn. now rewrite app_nil_r.
  - cbn [forallb] in H. rewrite !andb_true_iff, !negb_true_iff in H.
    destruct H as [[Hm Hd] Hls].
    unfold parse_lines in *. cbn [fold_left].
    unfold parse_line at 2. rewrite (not_marker l Hm).
    cbn [current_hash current_data state commits]. rewrite Hd.
    unfold append_message.
    cbn [data_author_name data_author_email data_date data_message data_diff].
    rewrite IH by assumption. now rewrite <- app_assoc.
Qed.

(** In the DIFF state every line that is not a revision marker goes to the
    diff. *)
Lemma parse_lines_diff (lines : list string) :
  forall (D : commits_dict) (h : string) (a e dt : option string)
         (m df : list string),
  forallb (fun l => negb (is_marker l)) lines = true ->
  parse_lines (mkParser D (Some h) (Some (mkData a e dt m df)) DIFF) lines
  = mkParser D (Some h) (Some (mkData a e dt m (df ++ lines))) DIFF.
Proof.
  induction lines as [|l ls IH]; intros D h a e dt m df H.
  - cbn. now rewrite app_nil_r.
  - cbn [forallb] in H. rewrite !andb_true_iff, !negb_true_iff in H.
    destruct H as [Hm Hls].
    unfold parse_lines in *. cbn [fold_left].
    unfold parse_line at 2. rewrite (not_marker l Hm).
    cbn [current_hash current_data state commits].
    unfold append_diff.
    cbn [data_author_name data_author_email data_date data_message data_diff].
    rewrite IH by assumption. now rewrite <- app_assoc.
Qed.

(** Before the first revision marker every other line is skipped. *)
Lemma parse_lines_before (lines : list string) :
  forallb (fun l => negb (is_marker l)) lines = true ->
  parse_lines parser_init lines = parser_init.
Proof.
  induction lines as [|l ls IH]; [reflexivity|].
  cbn [forallb]. rewrite !andb_true_iff, !negb_true_iff. intros [Hm Hls].
  unfold parse_lines in *. cbn [fold_left].
  unfold parse_line at 2. rewrite (not_marker l Hm).
  cbn [current_hash parser_init]. now apply IH.
Qed.

Lemma parse_lines_app (p : parser) (l1 l2 : list string) :
  parse_lines p (l1 ++ l2) = parse_lines (parse_lines p l1) l2.
Proof. unfold parse_lines. apply fold_left_app. Qed.

Lemma plain_lines_not_markers (lines : list string) :
  forallb plain_line lines = true ->
  forallb (fun l => negb (is_marker l)) lines = true.
Proof.
  induction lines as [|l ls IH]; [reflexivity|].
  cbn [forallb]. unfold plain_line at 1. rewrite !andb_true_iff.
  intros [[_ Hm] Hls]. auto.
Qed.

Lemma plain_lines_no_linebreak (lines : list string) :
  forallb plain_line lines = true -> forallb no_linebreak lines = true.
Proof.
  induction lines as [|l ls IH]; [reflexivity|].
  cbn [forallb]. unfold plain_line at 1. rewrite !andb_true_iff.
  intros [[Hl _] Hls]. auto.
Qed.

Lemma parse_lines_cons (p : parser) (l : string) (ls : list string) :
  parse_lines p (l :: ls) = parse_lines (parse_line p l) ls.
Proof. reflexivity. Qed.

Lemma message_block_safe (r : revision) :
  forallb (fun l => negb (is_marker l) && negb (diff_start_pattern l))
          (message_block r) = true.
Proof.
  unfold message_block. cbn [forallb].
  change (negb (is_marker EmptyString) && negb (diff_start_pattern EmptyString))
    with true.
  cbn [andb]. induction (rev_message r) as [|l ls IH]; [reflexivity | exact IH].
Qed.

Lemma revision_lines_blocks (r : revision) :
  revision_lines r
  = commit_line (rev_hash r)
    :: author_line (rev_name r) (rev_email r)
    :: date_line (rev_date r)
    :: message_block r ++ diff_line (rev_diff_start r) :: rev_diff_rest r.
Proof. reflexivity. Qed.

Lemma wf_revision_spec (r : revision) :
  wf_revision r = true ->
  is_hash (rev_hash r) = true
  /\ (trimmed (rev_name r) = true /\ no_linebreak (rev_name r) = true)
  /\ (trimmed (rev_email r) = true /\ no_linebreak (rev_email r) = true
      /\ string_forall (fun c => negb (Ascii.eqb c "<")) (rev_email r) = true)
  /\ (trimmed (rev_date r) = true /\ no_linebreak (rev_date r) = true)
  /\ forallb no_linebreak (rev_message r) = true
  /\ no_linebreak (rev_diff_start r) = true
  /\ forallb plain_line (rev_diff_rest r) = true.
Proof. unfold wf_revision. rewrite !andb_true_iff. tauto. Qed.

(** A well-formed revision leaves the parser in the DIFF state, with the
    revision before it stored and its own record ready. *)
Lemma parse_revision_lines (r : revision) (p : parser) :
  wf_revision r = true ->
  exists d,
    parse_lines p (revision_lines r)
    = mkParser (flush p) (Some (rev_hash r)) (Some d) DIFF
    /\ finish_data d = record_of r.
Proof.
  intro W. apply wf_revision_spec in W.
  destruct W as [Hh [[Tn Ln] [[Te [Le Lt]] [[Td Ld] [Lm [Ls Lr]]]]]].
  eexists. split.
  - rewrite revision_lines_blocks.
    rewrite parse_lines_cons, parse_line_marker by assumption.
    unfold new_data.
    rewrite parse_lines_cons, parse_line_author by assumption.
    rewrite parse_lines_cons, parse_line_date by assumption.
    rewrite parse_lines_app, parse_lines_message by apply message_block_safe.
    rewrite parse_lines_cons, parse_line_diff_start by reflexivity.
    rewrite parse_lines_diff by now apply plain_lines_not_markers.
    reflexivity.
  - reflexivity.
Qed.

(** ** The parser on the lines of a reconstructed record *)

Lemma starts_blank_quiet (l : string) :
  starts_blank l = true ->
  negb (is_marker l) && negb (diff_start_pattern l) = true.
Proof.
  destruct l as [|c l]; [reflexivity|]. cbn [starts_blank]. intro H.
  unfold is_marker, commit_pattern, diff_start_pattern. cbn [lit].
  destruct (Ascii.eqb_spec "c" c) as [<- | _]; [discriminate H|].
  destruct (Ascii.eqb_spec "d" c) as [<- | _]; [discriminate H|].
  reflexivity.
Qed.

Lemma quiet_lines (lines : list string) :
  forallb (fun l => no_linebreak l && starts_blank l) lines = true ->
  forallb (fun l => negb (is_marker l) && negb (diff_start_pattern l)) lines
  = true
  /\ forallb no_linebreak lines = true.
Proof.
  induction lines as [|l ls IH]; [split; reflexivity|].
  cbn [forallb]. intro H. rewrite !andb_true_iff in H.
  destruct H as [[Hl Hb] Hls]. destruct (IH Hls) as [H1 H2].
  rewrite H1, H2, Hl. rewrite (starts_blank_quiet l Hb). split; reflexivity.
Qed.

Lemma canonical_spec (h : string) (r : commit_record) :
  canonical (h, r) = true ->
  is_hash h = true
  /\ (exists name email d,
        author_name r = Some name /\ author_email r = Some email
        /\ date r = Some d
        /\ (trimmed name = true /\ no_linebreak name = true)
        /\ (trimmed email = true /\ no_linebreak email = true
            /\ string_forall (fun c => negb (Ascii.eqb c "<")) email = true)
        /\ (trimmed d = true /\ no_linebreak d = true))
  /\ stripped (message r) = true
  /\ forallb (fun l => no_linebreak l && starts_blank l)
             (split_nl (indent (message r))) = true
  /\ (exists first rest,
        split_nl (diff r) = first :: rest
        /\ diff_start_pattern first = true
        /\ forallb plain_line (first :: rest) = true).
Proof.
  unfold canonical. rewrite !andb_true_iff.
  intros [[[[Hh Ha] Hs] Hl] Hd].
  split; [exact Hh|]. split; [|split; [exact Hs|split; [exact Hl|]]].
  - destruct (author_name r) as [name|]; [|discriminate Ha].
    destruct (author_email r) as [email|]; [|discriminate Ha].
    destruct (date r) as [d|]; [|discriminate Ha].
    exists name, email, d. rewrite !andb_true_iff in Ha. tauto.
  - destruct (split_nl (diff r)) as [|first rest]; [discriminate Hd|].
    exists first, rest. apply andb_true_iff in Hd. tauto.
Qed.

(** The lines between the date line and the diff of a written record. *)
Lemma written_message_joined (m : string) :
  join nl (EmptyString :: split_nl (indent m) ++ [EmptyString])
  = (nl ++ indent m ++ nl)%string.
Proof.
  rewrite join_cons
    by (destruct (split_nl (indent m)); discriminate).
  rewrite join_app by (try apply split_on_nonempty; discriminate).
  rewrite join_split_nl. cbn [join String.concat append].
  reflexivity.
Qed.

(** The lines of a canonical entry are read back to the entry. *)
Lemma parse_record_lines (entry : string * commit_record) (p : parser) :
  canonical entry = true ->
  exists d,
    parse_lines p (record_lines entry)
    = mkParser (flush p) (Some (fst entry)) (Some d) DIFF
    /\ finish_data d = snd entry.
Proof.
  destruct entry as [h r]. intro C. apply canonical_spec in C.
  destruct C as [Hh [[name [email [d [Ea [Ee [Ed [[Tn Ln] [[Te [Le Lt]] [Td Ld]]]]]]]]]
                       [Hs [Hl [first [rest [Edf [Hf Hp]]]]]]]].
  destruct (quiet_lines _ Hl) as [Hq _].
  eexists. split.
  - unfold record_lines. rewrite Ea, Ee, Ed, Edf. cbn [app fst].
    rewrite parse_lines_cons, parse_line_marker by assumption.
    unfold new_data.
    rewrite parse_lines_cons, parse_line_author by assumption.
    rewrite parse_lines_cons, parse_line_date by assumption.
    replace (EmptyString
               :: split_nl (indent (message r)) ++ EmptyString :: first :: rest)
      with ((EmptyString :: split_nl (indent (message r)) ++ [EmptyString])
              ++ first :: rest)
      by (cbn [app]; rewrite <- app_assoc; reflexivity).
    rewrite parse_lines_app, parse_lines_message
      by (cbn [forallb]; rewrite forallb_app, Hq; reflexivity).
    cbn [forallb] in Hp. apply andb_true_iff in Hp. destruct Hp as [Hpf Hpr].
    rewrite parse_lines_cons, parse_line_diff_start;
      [| unfold plain_line in Hpf; apply andb_true_iff in Hpf;
         now apply negb_true_iff | exact Hf].
    rewrite parse_lines_diff by now apply plain_lines_not_markers.
    reflexivity.
  - unfold finish_data.
    cbn [data_author_name data_author_email data_date data_message data_diff
         app snd].
    rewrite written_message_joined, (strip_block (message r) Hs).
    rewrite <- Edf, join_split_nl. destruct r; cbn in *. congruence.
Qed.

(** ** A sequence of revisions *)

Section Sequence.

(** Items that are written as lines and read as one revision each. *)
Variable X : Type.
Variable lines_of : X -> list string.
Variable key : X -> string.
Variable value : X -> commit_record.
Variable good : X -> Prop.

Hypothesis key_not_empty : forall x, good x -> key x <> EmptyString.

Hypothesis read_one :
  forall x p, good x ->
  exists d,
    parse_lines p (lines_of x) = mkParser (flush p) (Some (key x)) (Some d) DIFF
    /\ finish_data d = value x.

Lemma parse_sequence (xs : list X) :
  Forall good xs ->
  forall p,
  flush (parse_lines p (flat_map lines_of xs))
  = fold_left (fun d x => dict_set d (key x) (value x)) xs (flush p).
Proof.
  induction 1 as [|x xs Hx Hxs IH]; intro p; [reflexivity|].
  cbn [flat_map fold_left]. rewrite parse_lines_app.
  destruct (read_one x p Hx) as [d [Hp Hd]].
  rewrite Hp, IH. f_equal.
  unfold flush. cbn [current_hash current_data commits].
  destruct (String.eqb_spec (key x) EmptyString) as [E | _];
    [elim (key_not_empty x Hx E)|].
  now rewrite Hd.
Qed.

End Sequence.

(** ** The result dictionary *)

Lemma dict_set_fresh (d : commits_dict) (k : string) (v : commit_record) :
  ~ In k (keys d) -> dict_set d k v = d ++ [(k, v)].
Proof.
  induction d as [|[k' v'] d IH]; intro H; [reflexivity|].
  cbn [dict_set]. cbn in H.
  destruct (String.eqb_spec k' k) as [E | _]; [tauto|].
  cbn [app]. f_equal. apply IH. tauto.
Qed.

Lemma dict_set_keys (d : commits_dict) (k : string) (v : commit_record) :
  keys (dict_set d k v) = if in_dec string_dec k (keys d) then keys d
                          else keys d ++ [k].
Proof.
  unfold keys. induction d as [|[k' v'] d IH]; [reflexivity|].
  cbn [dict_set]. destruct (String.eqb_spec k' k) as [E | N].
  - subst k'. cbn [map fst].
    destruct (in_dec string_dec k (k :: map fst d)) as [_ | N];
      [reflexivity | elim N; now left].
  - cbn [map fst]. rewrite IH.
    destruct (in_dec string_dec k (map fst d)) as [I | I],
             (in_dec string_dec k (k' :: map fst d)) as [J | J];
      try reflexivity.
    + elim J. now right.
    + destruct J as [J | J]; [congruence | contradiction].
Qed.

Lemma dict_set_nodup (d : commits_dict) (k : string) (v : commit_record) :
  NoDup (keys d) -> NoDup (keys (dict_set d k v)).
Proof.
  intro H. rewrite dict_set_keys.
  destruct (in_dec string_dec k (keys d)) as [I | I]; [exact H|].
  apply NoDup_app; [exact H | repeat constructor; intros [] |].
  intros x Hx [<- | []]. contradiction.
Qed.

Lemma dict_set_in (d : commits_dict) (k : string) (v : commit_record)
      (entry : string * commit_record) :
  In entry (dict_set d k v) -> entry = (k, v) \/ In entry d.
Proof.
  induction d as [|[k' v'] d IH]; cbn [dict_set].
  - intros [<- | []]. now left.
  - destruct (String.eqb_spec k' k) as [-> | _].
    + intros [<- | H]; [now left | right; now right].
    + intros [<- | H]; [right; now left|].
      destruct (IH H); [now left | right; now right].
Qed.

(** Storing entries with distinct new keys appends them. *)
Lemma store_distinct (m d : commits_dict) :
  NoDup (keys d ++ keys m) ->
  fold_left (fun acc entry => dict_set acc (fst entry) (snd entry)) m d = d ++ m.
Proof.
  revert d. induction m as [|[k v] m IH]; intros d H; cbn [fold_left].
  - now rewrite app_nil_r.
  - cbn [keys map fst snd] in H |- *.
    rewrite dict_set_fresh.
    + rewrite IH.
      * now rewrite <- app_assoc.
      * unfold keys. rewrite map_app. cbn [map fst].
        now rewrite <- app_assoc.
    + intro I. apply NoDup_remove_2 in H. apply H.
      apply in_or_app. now left.
Qed.

Lemma dict_of_invariant (revs : list revision) (P : revision -> Prop) :
  Forall P revs ->
  forall d,
    NoDup (keys d) ->
    (forall entry, In entry d ->
       exists r, P r /\ entry = (rev_hash r, record_of r)) ->
    let d' := fold_left (fun d r => dict_set d (rev_hash r) (record_of r))
                        revs d in
    NoDup (keys d')
    /\ forall entry, In entry d' ->
         exists r, P r /\ entry = (rev_hash r, record_of r).
Proof.
  induction 1 as [|r revs Hr Hrevs IH]; intros d Hn Hd; [now split|].
  cbn [fold_left]. apply IH.
  - now apply dict_set_nodup.
  - intros entry Hin. apply dict_set_in in Hin.
    destruct Hin as [-> | Hin]; [now exists r | now apply Hd].
Qed.

(** ** Lines without line boundaries *)

Lemma no_linebreak_app (a b : string) :
  no_linebreak (a ++ b) = no_linebreak a && no_linebreak b.
Proof. apply string_forall_app. Qed.

Lemma hash_no_linebreak (h : string) :
  is_hash h = true -> no_linebreak h = true.
Proof.
  intro H. apply is_hash_spec in H. destruct H as [_ H]. revert H.
  apply string_forall_impl. intros c Hc.
  destruct (is_linebreak c) eqn:E; [|reflexivity].
  apply linebreak_is_space in E. apply hex_not_space in Hc. congruence.
Qed.

Lemma commit_line_no_linebreak (h : string) :
  is_hash h = true -> no_linebreak (commit_line h) = true.
Proof.
  intro H. unfold commit_line. rewrite no_linebreak_app.
  rewrite (hash_no_linebreak h H). reflexivity.
Qed.

Lemma author_line_no_linebreak (name email : string) :
  no_linebreak name = true -> no_linebreak email = true ->
  no_linebreak (author_line name email) = true.
Proof.
  intros Hn He. unfold author_line.
  rewrite !no_linebreak_app, Hn, He. reflexivity.
Qed.

Lemma date_line_no_linebreak (d : string) :
  no_linebreak d = true -> no_linebreak (date_line d) = true.
Proof.
  intro H. unfold date_line. rewrite no_linebreak_app, H. reflexivity.
Qed.

Lemma forallb_flat_map {A B : Type} (f : B -> bool) (g : A -> list B)
      (xs : list A) :
  forallb f (flat_map g xs) = forallb (fun x => forallb f (g x)) xs.
Proof.
  induction xs as [|x xs IH]; [reflexivity|].
  cbn [flat_map forallb]. now rewrite forallb_app, IH.
Qed.

Lemma message_block_no_linebreak (r : revision) :
  forallb no_linebreak (rev_message r) = true ->
  forallb no_linebreak (message_block r) = true.
Proof.
  intro H. unfold message_block. cbn [forallb].
  change (no_linebreak EmptyString) with true. cbn [andb].
  rewrite forallb_app. cbn [forallb].
  change (no_linebreak EmptyString) with true. rewrite andb_true_r.
  induction (rev_message r) as [|l ls IH]; [reflexivity|].
  cbn [forallb map] in H |- *. apply andb_true_iff in H. destruct H as [Hl Hls].
  rewrite IH by assumption. unfold indent. rewrite no_linebreak_app, Hl.
  reflexivity.
Qed.

Lemma revision_lines_no_linebreak (r : revision) :
  wf_revision r = true -> forallb no_linebreak (revision_lines r) = true.
Proof.
  intro W. apply wf_revision_spec in W.
  destruct W as [Hh [[Tn Ln] [[Te [Le Lt]] [[Td Ld] [Lm [Ls Lr]]]]]].
  rewrite revision_lines_blocks. cbn [forallb].
  rewrite commit_line_no_linebreak, author_line_no_linebreak,
    date_line_no_linebreak by assumption.
  cbn [andb]. rewrite forallb_app, message_block_no_linebreak by assumption.
  cbn [forallb andb]. unfold diff_line at 1.
  rewrite no_linebreak_app, Ls. cbn [andb].
  change (no_linebreak "diff --git") with true. cbn [andb].
  now apply plain_lines_no_linebreak.
Qed.

Lemma record_lines_no_linebreak (entry : string * commit_record) :
  canonical entry = true -> forallb no_linebreak (record_lines entry) = true.
Proof.
  destruct entry as [h r]. intro C. apply canonical_spec in C.
  destruct C as [Hh [[name [email [d [Ea [Ee [Ed [[Tn Ln] [[Te [Le Lt]] [Td Ld]]]]]]]]]
                       [Hs [Hl [first [rest [Edf [Hf Hp]]]]]]]].
  destruct (quiet_lines _ Hl) as [_ Hn].
  unfold record_lines. rewrite Ea, Ee, Ed, Edf. cbn [app forallb].
  rewrite commit_line_no_linebreak, author_line_no_linebreak,
    date_line_no_linebreak by assumption.
  change (no_linebreak EmptyString) with true.
  cbn [andb]. rewrite forallb_app, Hn. cbn [andb].
  change (forallb no_linebreak (EmptyString :: first :: rest))
    with (forallb no_linebreak (first :: rest)).
  now apply plain_lines_no_linebreak.
Qed.

(** ** Parsing, writing back and parsing again *)

Lemma forallb_Forall {A : Type} (f : A -> bool) (l : list A) :
  forallb f l = true -> Forall (fun x => f x = true) l.
Proof. intro H. apply Forall_forall. now apply forallb_forall. Qed.

(** The first parse of a well-formed history. *)
Lemma parse_history_text (before : list string) (revs : list revision) :
  wf_history before revs = true ->
  parse_git_log_to_dict (history_text before revs) = dict_of revs.
Proof.
  unfold wf_history. rewrite andb_true_iff. intros [Hb Hr].
  unfold parse_git_log_to_dict, history_text.
  rewrite splitlines_unlines.
  - rewrite parse_lines_app.
    rewrite parse_lines_before by now apply plain_lines_not_markers.
    rewrite (parse_sequence revision revision_lines rev_hash record_of
               (fun r => wf_revision r = true)).
    + reflexivity.
    + intros r W. apply wf_revision_spec in W. now apply hash_not_empty.
    + intros r p W. now apply parse_revision_lines.
    + now apply forallb_Forall.
  - rewrite forallb_app, forallb_flat_map.
    rewrite plain_lines_no_linebreak by assumption. cbn [andb].
    apply forallb_forall. intros r Hin.
    apply revision_lines_no_linebreak.
    rewrite forallb_forall in Hr. now apply Hr.
Qed.

Lemma message_block_blank (r : revision) :
  forallb starts_blank (message_block r) = true.
Proof.
  unfold message_block. cbn [forallb starts_blank andb].
  rewrite forallb_app. cbn [forallb starts_blank andb].
  rewrite andb_true_r.
  induction (rev_message r) as [|l ls IH]; [reflexivity | exact IH].
Qed.

(** The message of a parsed revision, behind the indentation, is a text
    of quiet lines. *)
Lemma written_message_quiet (r : revision) :
  forallb no_linebreak (rev_message r) = true ->
  forallb (fun l => no_linebreak l && starts_blank l)
          (split_nl (indent (message (record_of r)))) = true.
Proof.
  intro Lm. cbn [record_of message].
  destruct (strip_join_lines (message_block r))
    as [first [others [E [Hf [Ho Hb]]]]].
  - discriminate.
  - now apply message_block_no_linebreak.
  - apply message_block_blank.
  - rewrite E.
    assert (J : indent (join nl (first :: others))
                = join nl (indent first :: others)).
    { unfold indent. destruct others as [|o os]; [reflexivity|].
      rewrite (join_cons first), (join_cons ("    " ++ first))
        by congruence.
      now rewrite append_assoc. }
    rewrite J, split_nl_join.
    + cbn [forallb]. unfold indent at 1 2.
      rewrite no_linebreak_app, Hf. cbn [andb].
      change (no_linebreak "    ") with true.
      change (starts_blank ("    " ++ first)) with true. cbn [andb].
      clear E J. induction others as [|o os IH]; [reflexivity|].
      cbn [forallb] in Ho, Hb |- *.
      apply andb_true_iff in Ho. apply andb_true_iff in Hb.
      destruct Ho as [Ho1 Ho2]. destruct Hb as [Hb1 Hb2].
      now rewrite Ho1, Hb1, IH.
    + discriminate.
    + cbn [forallb]. apply andb_true_iff. split.
      * apply no_linebreak_is_dot. unfold indent.
        rewrite no_linebreak_app, Hf. reflexivity.
      * apply forallb_forall. intros l Hin. apply no_linebreak_is_dot.
        rewrite forallb_forall in Ho. now apply Ho.
Qed.

Lemma record_of_canonical (r : revision) :
  wf_revision r = true -> canonical (rev_hash r, record_of r) = true.
Proof.
  intros W. apply wf_revision_spec in W.
  destruct W as [Hh [[Tn Ln] [[Te [Le Lt]] [[Td Ld] [Lm [Ls Lr]]]]]].
  unfold canonical. rewrite (written_message_quiet r Lm).
  cbn [record_of author_name author_email date message diff].
  rewrite Hh, Tn, Ln, Te, Le, Lt, Td, Ld. cbn [andb].
  rewrite strip_stripped. cbn [andb].
  assert (Hd : forallb plain_line
                 (diff_line (rev_diff_start r) :: rev_diff_rest r) = true).
  { cbn [forallb]. rewrite Lr, andb_true_r. unfold plain_line, diff_line.
    rewrite no_linebreak_app, Ls. reflexivity. }
  rewrite split_nl_join.
  - rewrite Hd.
    change (diff_start_pattern (diff_line (rev_diff_start r))) with true.
    reflexivity.
  - discriminate.
  - apply plain_lines_no_linebreak in Hd. apply forallb_forall.
    intros l Hl. apply no_linebreak_is_dot.
    rewrite forallb_forall in Hd. now apply Hd.
Qed.

(** The parse of the reconstruction of a mapping of canonical entries. *)
Lemma parse_serialize (m : commits_dict) :
  NoDup (keys m) -> forallb canonical m = true ->
  parse_git_log_to_dict (serialize m) = m.
Proof.
  intros Hn Hc. unfold parse_git_log_to_dict, serialize.
  rewrite splitlines_unlines.
  - rewrite (parse_sequence (string * commit_record) record_lines fst snd
               (fun entry => canonical entry = true)).
    + apply (store_distinct m []). exact Hn.
    + intros [h r] C. apply canonical_spec in C. now apply hash_not_empty.
    + intros entry p C. now apply parse_record_lines.
    + now apply forallb_Forall.
  - rewrite forallb_flat_map. apply forallb_forall. intros entry Hin.
    apply record_lines_no_linebreak.
    rewrite forallb_forall in Hc. now apply Hc.
Qed.

(** C9: [parse_git_log_to_dict] is idempotent on well-formed input: for
    every well-formed history text, parsing it, writing each record back
    in the shape of a revision (revision marker, author line, date line,
    message lines, diff lines) in mapping order, and parsing the result
    again yields the mapping of the first parse. *)
Theorem parse_serialize_parse (before : list string) (revs : list revision) :
  wf_history before revs = true ->
  parse_git_log_to_dict
    (serialize (parse_git_log_to_dict (history_text before revs)))
  = parse_git_log_to_dict (history_text before revs).
Proof.
  intros W. rewrite (parse_history_text before revs W) in *.
  unfold wf_history in W. apply andb_true_iff in W. destruct W as [_ Wr].
  destruct (dict_of_invariant revs (fun r => wf_revision r = true)
              (forallb_Forall _ _ Wr) [] (NoDup_nil _))
    as [Hn Hin]; [intros entry []|].
  apply parse_serialize; [exact Hn|].
  apply forallb_forall. intros entry He.
  destruct (Hin entry He) as [r [Hr ->]].
  now apply record_of_canonical.
Qed.

Lemma parse_serialize_parse_witness :
  wf_history [section_header 7 8]
             [plain_revision; docstring_revision; revert_revision] = true
  /\ parse_git_log_to_dict
       (serialize
          (parse_git_log_to_dict
             (history_text [section_header 7 8]
                [plain_revision; docstring_revision; revert_revision])))
     = parse_git_log_to_dict
         (history_text [section_header 7 8]
            [plain_revision; docstring_revision; revert_revision]).
Proof.
  split; [vm_compute; reflexivity|].
  apply (parse_serialize_parse
           [section_header 7 8]
           [plain_revision; docstring_revision; revert_revision]).
  vm_compute. reflexivity.
Defined.

(** ** Lines of a batch inside a diff *)

(** C10: once the parser is in the DIFF state of a revision, every
    following line that is not a revision marker is appended to the diff
    of that revision, and the record stored for the revision at the next
    marker or at the end of the input carries these lines in its diff.
    The header of a section of a batch and the first line of the text
    written for a failed range are not revision markers, so in a batch
    over several ranges the header of the next range is kept in the diff
    of the last revision of the range before it. *)
Theorem diff_state_keeps_batch_lines :
  (forall start end_, is_marker (section_header start end_) = false)
  /\ (forall rest, is_marker ("Error reading lines " ++ rest)%string = false)
  /\ (forall rest, is_marker ("Git execution failed: " ++ rest)%string = false)
  /\ forall (p : parser) (h : string) (d : commit_data) (lines : list string),
       current_hash p = Some h ->
       current_data p = Some d ->
       state p = DIFF ->
       h <> EmptyString ->
       forallb (fun l => negb (is_marker l)) lines = true ->
       parse_lines p lines
       = mkParser (commits p) (Some h)
                  (Some (mkData (data_author_name d) (data_author_email d)
                                (data_date d) (data_message d)
                                (data_diff d ++ lines)))
                  DIFF
       /\ flush (parse_lines p lines)
          = dict_set (commits p) h
              (mkRecord (data_author_name d) (data_author_email d)
                        (data_date d) (strip (join nl (data_message d)))
                        (join nl (data_diff d ++ lines))).
Proof.
  split; [intros; reflexivity|]. split; [intros; reflexivity|].
  split; [intros; reflexivity|].
  intros [D ch cd st] h [a e dt m df] lines Hh Hd Hst Hne Hl.
  cbn in Hh, Hd, Hst. subst ch cd st.
  cbn [commits data_author_name data_author_email data_date data_message
       data_diff].
  rewrite parse_lines_diff by assumption. split; [reflexivity|].
  unfold flush. cbn [current_hash current_data commits].
  destruct (String.eqb_spec h EmptyString) as [E | _]; [contradiction|].
  reflexivity.
Qed.

(** The batch for the signature line and the docstring lines of
    [calculate]: the header of the second section ends the diff of the
    revision of the first section. *)
Lemma diff_state_keeps_batch_lines_witness :
  splitlines (_run_git_log_L calculate_git [(2, 2); (3, 6)])
  = firstn 11 (splitlines (_run_git_log_L calculate_git [(2, 2); (3, 6)]))
    ++ [EmptyString; section_header 3 6]
    ++ skipn 13 (splitlines (_run_git_log_L calculate_git [(2, 2); (3, 6)]))
  /\ exists r,
       flush (parse_lines
                (parse_lines parser_init
                   (firstn 11 (splitlines
                                 (_run_git_log_L calculate_git [(2, 2); (3, 6)]))))
                [EmptyString; section_header 3 6])
       = [(hash_2, r)]
       /\ diff r
          = join nl [ "diff --git a/math_utils.py b/math_utils.py";
                      "--- a/math_utils.py";
                      "+++ b/math_utils.py";
                      "@@ -2,1 +2,1 @@";
                      EmptyString;
                      "--- History for lines 3-6 ---" ].
Proof.
  split; [vm_compute; reflexivity|].
  destruct diff_state_keeps_batch_lines as [_ [_ [_ H]]].
  edestruct (H (parse_lines parser_init
                  (firstn 11 (splitlines
                                (_run_git_log_L calculate_git [(2, 2); (3, 6)]))))
               hash_2
               (mkData (Some "Test User") (Some "test@example.com")
                       (Some "Fri Jan 11 20:23:52 2026 +0100")
                       [ EmptyString; "    Update signature with type hints";
                         EmptyString ]
                       [ "diff --git a/math_utils.py b/math_utils.py";
                         "--- a/math_utils.py";
                         "+++ b/math_utils.py";
                         "@@ -2,1 +2,1 @@" ])
               [EmptyString; section_header 3 6]) as [_ Hf];
    try (vm_compute; reflexivity); [discriminate|].
  eexists. split; [rewrite Hf; vm_compute; reflexivity | reflexivity].
Defined.

(** * Further properties *)

(** ** Names without a definition, and overloads *)

Lemma parse_nothing_to_analyze :
  parse_git_log_to_dict "No lines found to analyze." = [].
Proof. reflexivity. Qed.

(** X1: a name that matches no definition has no ranges of any kind, its
    three histories are the text for an empty batch, and
    [check_function_consistency] returns no warning, whatever the
    repository holds. *)
Theorem unknown_name_no_warnings
        (tree : node) (git_log_L : Z -> Z -> run_outcome)
        (strptime : string -> option datetime) (name : string) :
  _find_nodes tree name = [] ->
  get_definition_lines tree name = []
  /\ get_signature_lines tree name = []
  /\ get_docstring_lines tree name = []
  /\ get_implementation_without_docstring_lines tree name = []
  /\ get_git_history_signature tree git_log_L name
     = "No lines found to analyze."
  /\ get_git_history_body tree git_log_L name = "No lines found to analyze."
  /\ check_function_consistency tree git_log_L strptime name = Ok [].
Proof.
  intro H.
  unfold check_function_consistency, get_git_history_signature,
    get_git_history_docstring, get_git_history_body, get_definition_lines,
    get_signature_lines, get_docstring_lines,
    get_implementation_without_docstring_lines, get_git_history_body_ranges.
  rewrite H. cbn [map flat_map _run_git_log_L].
  rewrite parse_nothing_to_analyze. repeat split; reflexivity.
Qed.

Lemma unknown_name_no_warnings_witness :
  _find_nodes plain_tree "nothing" = []
  /\ check_function_consistency plain_tree plain_git strptime_git "nothing"
     = Ok [].
Proof.
  split; [reflexivity|].
  apply (unknown_name_no_warnings plain_tree plain_git strptime_git "nothing").
  reflexivity.
Defined.

Lemma flat_map_filter_nil {A B : Type} (f : A -> list B) (keep : A -> bool)
      (l : list A) :
  (forall x, keep x = false -> f x = []) ->
  flat_map f l = flat_map f (filter keep l).
Proof.
  intro H. induction l as [|x l IH]; [reflexivity|].
  cbn [flat_map filter]. destruct (keep x) eqn:E.
  - cbn [flat_map]. now rewrite IH.
  - now rewrite (H x E), IH.
Qed.

(** X2: an overload-marked definition has its whole range as signature,
    whatever its body holds, and the body history is asked for the
    definitions that are not overload-marked only: taking the overloads
    out of the matches does not change the ranges of the body query. *)
Theorem overloads_are_signature_only (tree : node) (name : string) :
  (forall n, In n (_find_nodes tree name) -> is_overload n = true ->
             In (_get_node_range n) (get_signature_lines tree name)
             /\ signature_range n = _get_node_range n
             /\ body_history_ranges n = [])
  /\ get_git_history_body_ranges tree name
     = flat_map body_history_ranges
         (filter (fun n => negb (is_overload n)) (_find_nodes tree name)).
Proof.
  assert (S : forall n, is_overload n = true ->
                signature_range n = _get_node_range n).
  { intros n H. unfold signature_range.
    destruct (_get_node_range n) as [s e]. now rewrite H. }
  assert (B : forall n, is_overload n = true -> body_history_ranges n = []).
  { intros n H. unfold body_history_ranges. now rewrite H. }
  split.
  - intros n Hin Hov. split; [|split; auto].
    unfold get_signature_lines. rewrite <- (S n Hov). now apply in_map.
  - unfold get_git_history_body_ranges. apply flat_map_filter_nil.
    intros n H. apply B. now apply negb_false_iff.
Qed.

Lemma overloads_are_signature_only_witness :
  signature_range
    (Def FunctionDef "f" 2 3 [mkDecorator 1 (Name "overload")]
         [Expr 3 3 ConstantOther]) = (1, 3)
  /\ get_git_history_body_ranges overloads_only_tree "f" = [].
Proof.
  split.
  - rewrite (proj1 (proj2 (proj1 (overloads_are_signature_only
                                    overloads_only_tree "f")
                             (Def FunctionDef "f" 2 3
                                  [mkDecorator 1 (Name "overload")]
                                  [Expr 3 3 ConstantOther])
                             (or_introl eq_refl) eq_refl))).
    reflexivity.
  - rewrite (proj2 (overloads_are_signature_only overloads_only_tree "f")).
    reflexivity.
Defined.

(** ** The ranges of one definition, one against the other *)

Section ExistsIn.

Context {A : Type} (P : A -> Prop).

Lemma ex_in_app (a b : list A) :
  (exists r, In r (a ++ b) /\ P r)
  <-> (exists r, In r a /\ P r) \/ (exists r, In r b /\ P r).
Proof.
  split.
  - intros [r [H Hr]]. apply in_app_or in H.
    destruct H; [left | right]; now exists r.
  - intros [[r [H Hr]] | [r [H Hr]]]; exists r; split; auto;
      apply in_or_app; auto.
Qed.

Lemma ex_in_one (x : A) : (exists r, In r [x] /\ P r) <-> P x.
Proof.
  split; [intros [r [[<- | []] Hr]]; exact Hr | intro H; exists x; cbn; auto].
Qed.

Lemma ex_in_nil : (exists r : A, In r [] /\ P r) <-> False.
Proof. split; [intros [r [[] _]] | intros []]. Qed.

Lemma ex_in_if (c : bool) (x : A) :
  (exists r, In r (if c then [x] else []) /\ P r) <-> c = true /\ P x.
Proof.
  destruct c; [rewrite ex_in_one | rewrite ex_in_nil]; intuition congruence.
Qed.

End ExistsIn.

Section RangesOfOneDefinition.

Variable n : node.
Hypothesis Hok : def_lines_ok n = true.
Hypothesis Hdef : exists name, is_def_named name n = true.

Lemma signature_within : within (signature_range n) (_get_node_range n).
Proof.
  pose proof (node_range_bounds n Hok Hdef) as B.
  unfold within, signature_range.
  cbn [_get_node_range fst snd] in *.
  destruct (is_overload n); [cbn; lia|].
  destruct (node_body n) as [|first rest] eqn:Hb; [cbn; lia|].
  pose proof (first_statement_bounds n Hok Hdef first rest Hb) as F.
  destruct (node_lineno first =? node_lineno n); cbn; lia.
Qed.

Lemma docstring_within (r : Z * Z) :
  In r (docstring_ranges n) -> within r (_get_node_range n).
Proof.
  pose proof (node_range_bounds n Hok Hdef) as B. unfold docstring_ranges.
  destruct (_get_docstring_node n) as [doc|] eqn:Hdoc; [|intros []].
  destruct (docstring_node_first n doc Hdoc) as [rest Hb].
  pose proof (first_statement_bounds n Hok Hdef doc rest Hb) as F.
  intros [<- | []]. unfold within. cbn [_get_node_range fst snd] in *. lia.
Qed.

Lemma body_history_within (r : Z * Z) :
  In r (body_history_ranges n) -> within r (_get_node_range n).
Proof.
  pose proof (node_range_bounds n Hok Hdef) as B. unfold body_history_ranges.
  destruct (is_overload n); [intros []|]. cbn [orb].
  destruct (node_body n) as [|first rest] eqn:Hb; [intros []|].
  pose proof (first_statement_bounds n Hok Hdef first rest Hb) as F.
  unfold within. cbn [_get_node_range fst snd] in *.
  destruct (_get_docstring_node n) as [doc|] eqn:Hdoc.
  - destruct (docstring_node_first n doc Hdoc) as [rest' Hb'].
    rewrite Hb in Hb'. injection Hb' as <- _.
    destruct (Z.leb_spec (node_end_lineno first + 1) (node_end_lineno n));
      [|intros []].
    intros [<- | []]. cbn. lia.
  - destruct (Z.leb_spec (node_lineno first) (node_end_lineno n));
      [|intros []].
    intros [<- | []]. cbn. lia.
Qed.

(** The docstring and the ranges without it share no line and fill the
    range of the definition. *)
Lemma docstring_partition (l : Z) :
  (in_range l (_get_node_range n)
   <-> exists r, In r (docstring_ranges n
                       ++ implementation_without_docstring_ranges n)
                 /\ in_range l r)
  /\ ~ ((exists r, In r (docstring_ranges n) /\ in_range l r)
        /\ (exists r, In r (implementation_without_docstring_ranges n)
                      /\ in_range l r)).
Proof.
  pose proof (node_range_bounds n Hok Hdef) as B.
  unfold docstring_ranges, implementation_without_docstring_ranges.
  cbn [_get_node_range fst snd] in *.
  set (start := match node_decorator_list n with
                | [] => node_lineno n
                | d :: _ => dec_lineno d
                end) in *.
  destruct (_get_docstring_node n) as [doc|] eqn:Hdoc.
  - destruct (docstring_node_first n doc Hdoc) as [rest Hb].
    pose proof (first_statement_bounds n Hok Hdef doc rest Hb) as F.
    rewrite !ex_in_app, !ex_in_one, !ex_in_if.
    unfold in_range.
    change (fst (_get_node_range n)) with start.
    change (snd (_get_node_range n)) with (node_end_lineno n).
    cbn [fst snd].
    rewrite Z.gtb_ltb, !Z.ltb_lt. lia.
  - rewrite !ex_in_app, !ex_in_one, !ex_in_nil.
    unfold in_range.
    change (fst (_get_node_range n)) with start.
    change (snd (_get_node_range n)) with (node_end_lineno n).
    cbn [fst snd]. lia.
Qed.

(** For a definition that is not overload-marked and whose body starts
    below the line of the definition keyword, the signature ends on the
    line before the first statement, and the signature, the docstring and
    the body history follow one another without a common line. *)
Lemma categories_in_order (first : node) (rest : list node) :
  is_overload n = false ->
  node_body n = first :: rest ->
  node_lineno first <> node_lineno n ->
  snd (signature_range n) = node_lineno first - 1
  /\ (forall r, In r (docstring_ranges n) ->
        snd (signature_range n) < fst r)
  /\ (forall r, In r (body_history_ranges n) ->
        snd (signature_range n) < fst r)
  /\ (forall rd rb, In rd (docstring_ranges n) ->
        In rb (body_history_ranges n) -> snd rd < fst rb)
  /\ (forall doc, _get_docstring_node n = Some doc ->
        implementation_without_docstring_ranges n
        = signature_range n :: body_history_ranges n).
Proof.
  intros Hov Hb Hline.
  pose proof (node_range_bounds n Hok Hdef) as B.
  pose proof (first_statement_bounds n Hok Hdef first rest Hb) as F.
  assert (S : signature_range n
              = (fst (_get_node_range n), node_lineno first - 1)).
  { unfold signature_range. cbn [_get_node_range fst].
    rewrite Hov, Hb.
    destruct (Z.eqb_spec (node_lineno first) (node_lineno n)) as [E | _];
      [contradiction|].
    f_equal. cbn [_get_node_range fst] in B. lia. }
  assert (D : forall doc, _get_docstring_node n = Some doc -> doc = first).
  { intros doc Hdoc. destruct (docstring_node_first n doc Hdoc) as [rest' Hb'].
    rewrite Hb in Hb'. now injection Hb' as <- _. }
  rewrite S. cbn [snd]. split; [reflexivity|]. split; [|split; [|split]].
  - intros r. unfold docstring_ranges.
    destruct (_get_docstring_node n) as [doc|] eqn:Hdoc; [|intros []].
    rewrite (D doc eq_refl). intros [<- | []]. cbn. lia.
  - intros r. unfold body_history_ranges. rewrite Hov, Hb. cbn [orb].
    destruct (_get_docstring_node n) as [doc|] eqn:Hdoc.
    + rewrite (D doc eq_refl).
      destruct (node_end_lineno first + 1 <=? node_end_lineno n);
        [|intros []].
      intros [<- | []]. cbn. lia.
    + destruct (node_lineno first <=? node_end_lineno n); [|intros []].
      intros [<- | []]. cbn. lia.
  - intros rd rb. unfold docstring_ranges, body_history_ranges.
    rewrite Hov, Hb. cbn [orb].
    destruct (_get_docstring_node n) as [doc|] eqn:Hdoc; [|intros []].
    rewrite (D doc eq_refl). intros [<- | []].
    destruct (node_end_lineno first + 1 <=? node_end_lineno n); [|intros []].
    intros [<- | []]. cbn. lia.
  - intros doc Hdoc. pose proof (D doc Hdoc) as ->.
    unfold implementation_without_docstring_ranges, body_history_ranges.
    rewrite Hov, Hb, Hdoc. cbn [orb _get_node_range fst snd] in *.
    destruct (Z.gtb_spec (node_lineno first)
                (match node_decorator_list n with
                 | [] => node_lineno n
                 | d :: _ => dec_lineno d
                 end)) as [G | G]; [|lia].
    cbn [app]. f_equal.
    destruct (Z.ltb_spec (node_end_lineno first) (node_end_lineno n)),
             (Z.leb_spec (node_end_lineno first + 1) (node_end_lineno n));
      try reflexivity; lia.
Qed.

End RangesOfOneDefinition.

Lemma implementation_without_docstring_within (n : node) (r : Z * Z) :
  def_lines_ok n = true -> (exists name, is_def_named name n = true) ->
  In r (implementation_without_docstring_ranges n) ->
  within r (_get_node_range n).
Proof.
  intros Hok Hdef Hin.
  pose proof (implementation_without_docstring_ranges_ok n Hok Hdef r Hin)
    as [_ Hr].
  destruct (docstring_partition n Hok Hdef (fst r)) as [[_ P1] _].
  destruct (docstring_partition n Hok Hdef (snd r)) as [[_ P2] _].
  assert (I1 : in_range (fst r) (_get_node_range n)).
  { apply P1. exists r. split; [apply in_or_app; now right|].
    unfold in_range. lia. }
  assert (I2 : in_range (snd r) (_get_node_range n)).
  { apply P2. exists r. split; [apply in_or_app; now right|].
    unfold in_range. lia. }
  unfold within, in_range in *. lia.
Qed.

(** X3: on a tree with sound line numbers, every range computed for a
    matching definition (its signature, its docstring, its ranges without
    the docstring, and the range of its body history) lies within the
    range of the definition, and is a range ([start <= end]). *)
Theorem ranges_within_definition (tree : node) (name : string) (n : node) :
  tree_lines_ok tree = true ->
  In n (_find_nodes tree name) ->
  within (signature_range n) (_get_node_range n)
  /\ forall r,
       In r (docstring_ranges n ++ implementation_without_docstring_ranges n
             ++ body_history_ranges n) ->
       within r (_get_node_range n).
Proof.
  intros Hok Hin. destruct (find_nodes_ok tree name n Hok Hin) as [Hn Hd].
  split; [now apply signature_within|].
  intros r Hr. apply in_app_or in Hr. destruct Hr as [Hr | Hr].
  - now apply docstring_within.
  - apply in_app_or in Hr. destruct Hr as [Hr | Hr].
    + now apply implementation_without_docstring_within.
    + now apply body_history_within.
Qed.

Lemma ranges_within_definition_witness :
  within (signature_range calculate_def) (2, 8).
Proof.
  destruct (ranges_within_definition calculate_tree "calculate" calculate_def)
    as [H _]; [reflexivity | left; reflexivity | exact H].
Defined.

(** X4: on a tree with sound line numbers, the docstring range and the
    ranges of [get_implementation_without_docstring_lines] of a matching
    definition divide the range of the definition: every line of the
    definition lies in one of them, no other line does, and no line lies
    both in the docstring and in a range without the docstring. *)
Theorem docstring_and_rest_divide_definition
        (tree : node) (name : string) (n : node) (l : Z) :
  tree_lines_ok tree = true ->
  In n (_find_nodes tree name) ->
  (in_range l (_get_node_range n)
   <-> exists r, In r (docstring_ranges n
                       ++ implementation_without_docstring_ranges n)
                 /\ in_range l r)
  /\ ~ ((exists r, In r (docstring_ranges n) /\ in_range l r)
        /\ (exists r, In r (implementation_without_docstring_ranges n)
                      /\ in_range l r)).
Proof.
  intros Hok Hin. destruct (find_nodes_ok tree name n Hok Hin) as [Hn Hd].
  now apply docstring_partition.
Qed.

Lemma docstring_and_rest_divide_definition_witness :
  ~ ((exists r, In r (docstring_ranges calculate_def) /\ in_range 4 r)
     /\ (exists r, In r (implementation_without_docstring_ranges calculate_def)
                   /\ in_range 4 r)).
Proof.
  destruct (docstring_and_rest_divide_definition
              calculate_tree "calculate" calculate_def 4)
    as [_ H]; [reflexivity | left; reflexivity | exact H].
Defined.

(** X5: on a tree with sound line numbers, for a matching definition that
    is not overload-marked and whose first body statement starts below
    the line of the definition keyword, the signature ends on the line
    before the first statement, every docstring line and every line of
    the body history lies below the signature, the body history lies
    below the docstring, and when there is a docstring the ranges without
    it are the signature followed by the range of the body history. *)
Theorem history_categories_do_not_overlap
        (tree : node) (name : string) (n first : node) (rest : list node) :
  tree_lines_ok tree = true ->
  In n (_find_nodes tree name) ->
  is_overload n = false ->
  node_body n = first :: rest ->
  node_lineno first <> node_lineno n ->
  snd (signature_range n) = node_lineno first - 1
  /\ (forall r, In r (docstring_ranges n) ->
        snd (signature_range n) < fst r)
  /\ (forall r, In r (body_history_ranges n) ->
        snd (signature_range n) < fst r)
  /\ (forall rd rb, In rd (docstring_ranges n) ->
        In rb (body_history_ranges n) -> snd rd < fst rb)
  /\ (forall doc, _get_docstring_node n = Some doc ->
        implementation_without_docstring_ranges n
        = signature_range n :: body_history_ranges n).
Proof.
  intros Hok Hin. destruct (find_nodes_ok tree name n Hok Hin) as [Hn Hd].
  now apply categories_in_order.
Qed.

Lemma history_categories_do_not_overlap_witness :
  snd (signature_range calculate_def) = 3 - 1
  /\ implementation_without_docstring_ranges calculate_def
     = signature_range calculate_def :: body_history_ranges calculate_def.
Proof.
  destruct (history_categories_do_not_overlap
              calculate_tree "calculate" calculate_def
              (Expr 3 6 ConstantStr) [Other 7 7 []; Other 8 8 []])
    as [H1 [_ [_ [_ H5]]]];
    try reflexivity; [left; reflexivity | discriminate |].
  split; [exact H1 | exact (H5 (Expr 3 6 ConstantStr) eq_refl)].
Defined.

(** ** The text of a batch *)

Lemma run_git_log_L_output_log (git_log_L : Z -> Z -> run_outcome)
      (line_ranges : list (Z * Z)) :
  line_ranges <> [] ->
  _run_git_log_L git_log_L line_ranges = join nl (output_log git_log_L line_ranges).
Proof. destruct line_ranges; [congruence | reflexivity]. Qed.

Lemma output_log_runnable (git_log_L : Z -> Z -> run_outcome)
      (line_ranges : list (Z * Z)) :
  existsb runnable line_ranges = true <-> output_log git_log_L line_ranges <> [].
Proof.
  induction line_ranges as [|r rs IH]; cbn [existsb output_log flat_map].
  - split; [discriminate | congruence].
  - unfold runnable at 1. destruct (fst r >? snd r); cbn [negb orb app].
    + exact IH.
    + split; [discriminate | reflexivity].
Qed.

Lemma existsb_not_nil {A : Type} (f : A -> bool) (l : list A) :
  existsb f l = true -> l <> [].
Proof. destruct l; [discriminate | congruence]. Qed.

(** X6: the text of a batch is the text of its parts: when two lists of
    ranges each hold a range that is run ([start <= end]), the history
    text of the two lists one after the other is the text of the first, a
    newline, and the text of the second. *)
Theorem batch_text_of_parts (git_log_L : Z -> Z -> run_outcome)
        (a b : list (Z * Z)) :
  existsb runnable a = true ->
  existsb runnable b = true ->
  _run_git_log_L git_log_L (a ++ b)
  = (_run_git_log_L git_log_L a ++ nl ++ _run_git_log_L git_log_L b)%string.
Proof.
  intros Ha Hb.
  pose proof (existsb_not_nil _ _ Ha) as Na.
  pose proof (existsb_not_nil _ _ Hb) as Nb.
  rewrite !run_git_log_L_output_log; try assumption.
  - unfold output_log. rewrite flat_map_app. apply join_app.
    + now apply (output_log_runnable git_log_L a).
    + now apply (output_log_runnable git_log_L b).
  - destruct a; [congruence | discriminate].
Qed.

Lemma batch_text_of_parts_witness :
  _run_git_log_L calculate_git [(2, 2); (3, 6)]
  = (_run_git_log_L calculate_git [(2, 2)] ++ nl
     ++ _run_git_log_L calculate_git [(3, 6)])%string.
Proof.
  apply (batch_text_of_parts calculate_git [(2, 2)] [(3, 6)]); reflexivity.
Defined.

Lemma output_log_filter (git_log_L : Z -> Z -> run_outcome)
      (line_ranges : list (Z * Z)) :
  output_log git_log_L (filter runnable line_ranges)
  = output_log git_log_L line_ranges.
Proof.
  unfold output_log. symmetry. apply flat_map_filter_nil.
  intros r H. unfold runnable in H. apply negb_false_iff in H. now rewrite H.
Qed.

(** X7: a range with [start > end] is passed over without a run of git
    and without a line in the text: a batch with a range that is run has
    the text of its runnable ranges alone, and a batch that is not empty
    and has no range that is run has the empty text, not the text of the
    empty batch; the empty text holds no revision. *)
Theorem empty_ranges_are_skipped (git_log_L : Z -> Z -> run_outcome)
        (line_ranges : list (Z * Z)) :
  (existsb runnable line_ranges = true ->
   _run_git_log_L git_log_L line_ranges
   = _run_git_log_L git_log_L (filter runnable line_ranges))
  /\ (line_ranges <> [] -> existsb runnable line_ranges = false ->
      _run_git_log_L git_log_L line_ranges = EmptyString
      /\ parse_git_log_to_dict (_run_git_log_L git_log_L line_ranges) = []).
Proof.
  split.
  - intro H. pose proof (existsb_not_nil _ _ H) as N.
    rewrite !run_git_log_L_output_log.
    + now rewrite output_log_filter.
    + intro E. apply (output_log_runnable git_log_L) in H.
      rewrite <- output_log_filter, E in H. now apply H.
    + exact N.
  - intros N H. rewrite run_git_log_L_output_log by exact N.
    destruct (output_log git_log_L line_ranges) as [|x xs] eqn:E.
    + split; reflexivity.
    + exfalso.
      assert (T : existsb runnable line_ranges = true)
        by (apply (output_log_runnable git_log_L); rewrite E; discriminate).
      congruence.
Qed.

Lemma empty_ranges_are_skipped_witness :
  _run_git_log_L calculate_git [(5, 4); (2, 2)]
  = _run_git_log_L calculate_git [(2, 2)]
  /\ _run_git_log_L calculate_git [(5, 4)] = EmptyString.
Proof.
  split.
  - apply (proj1 (empty_ranges_are_skipped calculate_git [(5, 4); (2, 2)])).
    reflexivity.
  - apply (proj2 (empty_ranges_are_skipped calculate_git [(5, 4)]));
      [discriminate | reflexivity].
Defined.

(** ** Headers and failure texts in front of a history *)

Lemma digit_char_no_linebreak (d : Z) :
  0 <= d < 10 -> is_linebreak (digit_char d) = false.
Proof.
  intro H.
  assert (E : d = 0 \/ d = 1 \/ d = 2 \/ d = 3 \/ d = 4 \/ d = 5 \/ d = 6
              \/ d = 7 \/ d = 8 \/ d = 9) by lia.
  repeat (destruct E as [-> | E]; [reflexivity|]). subst d. reflexivity.
Qed.

Lemma str_of_digits_no_linebreak (fuel : nat) :
  forall n acc, no_linebreak acc = true ->
  no_linebreak (str_of_digits fuel n acc) = true.
Proof.
  induction fuel as [|fuel IH]; intros n acc Hacc; [exact Hacc|].
  cbn [str_of_digits].
  assert (Hacc' : no_linebreak (String (digit_char (n mod 10)) acc) = true).
  { unfold no_linebreak. cbn [string_forall]. fold (no_linebreak acc).
    rewrite digit_char_no_linebreak by (apply Z.mod_pos_bound; lia).
    exact Hacc. }
  destruct (n / 10 =? 0); [exact Hacc' | now apply IH].
Qed.

Lemma str_of_int_no_linebreak (n : Z) : no_linebreak (str_of_int n) = true.
Proof.
  unfold str_of_int. destruct (n <? 0).
  - unfold no_linebreak. cbn [string_forall].
    change (negb (is_linebreak "-")) with true. cbn [andb].
    now apply str_of_digits_no_linebreak.
  - now apply str_of_digits_no_linebreak.
Qed.

Lemma section_header_no_linebreak (start end_ : Z) :
  no_linebreak (section_header start end_) = true.
Proof.
  unfold section_header.
  rewrite !no_linebreak_app, !str_of_int_no_linebreak. reflexivity.
Qed.

(** A line in front of a text is a line in front of its lines. *)
Lemma splitlines_first_line (l rest : string) :
  no_linebreak l = true ->
  splitlines (l ++ nl ++ rest) = l :: splitlines rest.
Proof.
  intro H. unfold splitlines.
  rewrite splitlines_from_line by exact H.
  now rewrite splitlines_from_nl.
Qed.

(** X8: for a single range on which git succeeds, the header that
    [_run_git_log_L] writes in front of the output of git does not reach
    the parsed mapping: parsing the history text gives what parsing the
    output of git gives. *)
Theorem single_range_header_is_ignored
        (git_log_L : Z -> Z -> run_outcome) (start end_ : Z)
        (stdout stderr : string) :
  start <= end_ ->
  git_log_L start end_ = CompletedProcess 0 stdout stderr ->
  parse_git_log_to_dict (_run_git_log_L git_log_L [(start, end_)])
  = parse_git_log_to_dict stdout.
Proof.
  intros Hle Hgit.
  unfold _run_git_log_L. cbn [flat_map fst snd app].
  destruct (Z.gtb_spec start end_) as [G | _]; [lia|].
  cbn [join String.concat]. unfold run_section. rewrite Hgit.
  cbn [Z.eqb app join String.concat]. unfold parse_git_log_to_dict.
  rewrite splitlines_first_line by apply section_header_no_linebreak.
  now rewrite parse_lines_cons.
Qed.

Lemma single_range_header_is_ignored_witness :
  parse_git_log_to_dict (_run_git_log_L calculate_git [(2, 2)])
  = parse_git_log_to_dict
      (revision_text hash_2 "Fri Jan 11 20:23:52 2026 +0100"
         "Update signature with type hints" "@@ -2,1 +2,1 @@").
Proof.
  apply (single_range_header_is_ignored calculate_git 2 2 _ EmptyString);
    [lia | reflexivity].
Defined.

(** The lines of a text joined by newlines, when no line is empty. *)
Lemma splitlines_join (ls : list string) :
  forallb no_linebreak ls = true ->
  forallb (fun l => negb (String.eqb l EmptyString)) ls = true ->
  splitlines (join nl ls) = ls.
Proof.
  induction ls as [|l ls IH]; [reflexivity|].
  cbn [forallb]. rewrite !andb_true_iff, negb_true_iff, String.eqb_neq.
  intros [Hl Hls] [Nl Nls].
  destruct ls as [|l' ls].
  - cbn [join String.concat]. unfold splitlines.
    rewrite <- (append_nil_r l) at 1.
    rewrite splitlines_from_line by exact Hl.
    cbn [append splitlines_from]. destruct l; [congruence | reflexivity].
  - rewrite join_cons by congruence.
    rewrite splitlines_first_line by exact Hl.
    now rewrite IH.
Qed.

Lemma failed_section_line (git_log_L : Z -> Z -> run_outcome) (range : Z * Z) :
  fails_plainly (git_log_L (fst range) (snd range)) = true ->
  no_linebreak (run_section git_log_L range) = true
  /\ run_section git_log_L range <> EmptyString
  /\ is_marker (run_section git_log_L range) = false.
Proof.
  destruct range as [s e]. unfold run_section. cbn [fst snd].
  destruct (git_log_L s e) as [rc out err | msg]; cbn [fails_plainly].
  - rewrite andb_true_iff, negb_true_iff. intros [-> H].
    unfold error_text. repeat split; [|discriminate].
    rewrite !no_linebreak_app, !str_of_int_no_linebreak, H. reflexivity.
  - intro H. unfold failure_text. repeat split; [|discriminate].
    rewrite no_linebreak_app, H. reflexivity.
Qed.

(** When every run of git fails plainly, every history is a text without
    revisions. *)
Lemma failed_batch_parses_empty (git_log_L : Z -> Z -> run_outcome)
      (line_ranges : list (Z * Z)) :
  (forall s e, fails_plainly (git_log_L s e) = true) ->
  parse_git_log_to_dict (_run_git_log_L git_log_L line_ranges) = [].
Proof.
  intro F. destruct line_ranges as [|r rs]; [reflexivity|].
  rewrite run_git_log_L_output_log by discriminate.
  assert (H : forallb no_linebreak (output_log git_log_L (r :: rs)) = true
              /\ forallb (fun l => negb (String.eqb l EmptyString))
                         (output_log git_log_L (r :: rs)) = true
              /\ forallb (fun l => negb (is_marker l))
                         (output_log git_log_L (r :: rs)) = true).
  { unfold output_log. rewrite !forallb_flat_map.
    repeat split; apply forallb_forall; intros x _;
      destruct (failed_section_line git_log_L x (F _ _)) as [H1 [H2 H3]];
      destruct (fst x >? snd x); cbn [forallb]; try reflexivity.
    - now rewrite H1.
    - apply String.eqb_neq in H2. now rewrite H2.
    - now rewrite H3. }
  destruct H as [H1 [H2 H3]].
  unfold parse_git_log_to_dict. rewrite splitlines_join by assumption.
  now rewrite parse_lines_before.
Qed.

(** X9: when every run of git fails (a non-zero exit or a failure to
    start) with a message of one line, as outside a repository,
    [check_function_consistency] does not raise and reports nothing: the
    three histories hold no revision, and the call returns no warning. *)
Theorem failing_git_gives_no_warnings
        (tree : node) (git_log_L : Z -> Z -> run_outcome)
        (strptime : string -> option datetime) (name : string) :
  (forall s e, fails_plainly (git_log_L s e) = true) ->
  parse_git_log_to_dict (get_git_history_signature tree git_log_L name) = []
  /\ parse_git_log_to_dict (get_git_history_docstring tree git_log_L name) = []
  /\ parse_git_log_to_dict (get_git_history_body tree git_log_L name) = []
  /\ check_function_consistency tree git_log_L strptime name = Ok [].
Proof.
  intro F.
  unfold check_function_consistency, get_git_history_signature,
    get_git_history_docstring, get_git_history_body.
  rewrite !failed_batch_parses_empty by exact F.
  repeat split; reflexivity.
Qed.

Lemma failing_git_gives_no_warnings_witness :
  check_function_consistency calculate_tree no_repository strptime_git
                             "calculate" = Ok [].
Proof.
  apply (failing_git_gives_no_warnings calculate_tree no_repository
                                       strptime_git "calculate").
  intros s e. reflexivity.
Defined.

(** ** The keys of the parsed mapping *)

(** X10: the lines in front of the first revision marker do not reach the
    parsed mapping: a history text parses to what the text without these
    lines parses to, and a text of such lines alone parses to the empty
    mapping. *)
Theorem lines_before_first_marker_are_ignored
        (before rest : list string) :
  forallb plain_line before = true ->
  forallb no_linebreak rest = true ->
  parse_git_log_to_dict (unlines (before ++ rest))
  = parse_git_log_to_dict (unlines rest)
  /\ parse_git_log_to_dict (unlines before) = [].
Proof.
  intros Hb Hr.
  pose proof (plain_lines_no_linebreak before Hb) as Lb.
  pose proof (plain_lines_not_markers before Hb) as Mb.
  unfold parse_git_log_to_dict. split.
  - rewrite !splitlines_unlines;
      [| exact Hr | rewrite forallb_app, Lb, Hr; reflexivity].
    now rewrite parse_lines_app, parse_lines_before.
  - rewrite splitlines_unlines by exact Lb.
    now rewrite parse_lines_before.
Qed.

Lemma lines_before_first_marker_are_ignored_witness :
  parse_git_log_to_dict
    (unlines ([section_header 7 8; "warning: a line of git"]
              ++ revision_lines plain_revision))
  = parse_git_log_to_dict (unlines (revision_lines plain_revision)).
Proof.
  apply (lines_before_first_marker_are_ignored
           [section_header 7 8; "warning: a line of git"]
           (revision_lines plain_revision)); reflexivity.
Defined.

Section MatcherInversion.

Context {R : Type}.

Lemma lit_some (l s : string) (k : string -> option R) (x : R) :
  lit l s k = Some x -> exists r, s = (l ++ r)%string /\ k r = Some x.
Proof.
  revert s. induction l as [|a l IH]; intros s H; cbn [lit] in H.
  - now exists s.
  - destruct s as [|c s]; [discriminate|].
    destruct (Ascii.eqb_spec a c) as [<- | _]; [|discriminate].
    destruct (IH s H) as [r [-> Hr]]. now exists r.
Qed.

Lemma greedy_plus_some (p : ascii -> bool) (s : string)
      (k : string -> string -> option R) (x : R) :
  greedy_plus p s k = Some x -> exists g r, k g r = Some x.
Proof.
  revert k. induction s as [|c s IH]; intros k H; cbn [greedy_plus] in H;
    [discriminate|].
  destruct (p c); [|discriminate].
  destruct (greedy_plus p s (fun g r => k (String c g) r)) as [y|] eqn:E.
  - injection H as ->. destruct (IH _ E) as [g [r Hk]]. now exists (String c g), r.
  - now exists (String c EmptyString), s.
Qed.

Lemma exactly_some (n : nat) (p : ascii -> bool) (s : string)
      (k : string -> string -> option R) (x : R) :
  exactly n p s k = Some x ->
  exists g r, String.length g = n /\ string_forall p g = true
              /\ k g r = Some x.
Proof.
  revert s k. induction n as [|n IH]; intros s k H; cbn [exactly] in H.
  - now exists EmptyString, s.
  - destruct s as [|c s]; [discriminate|].
    destruct (p c) eqn:Hc; [|discriminate].
    destruct (IH s _ H) as [g [r [Hl [Hg Hk]]]].
    exists (String c g), r. cbn [String.length string_forall].
    now rewrite Hl, Hc, Hg.
Qed.

End MatcherInversion.

(** What the marker pattern captures is a hash. *)
Lemma commit_pattern_hash (l h : string) :
  commit_pattern l = Some h -> is_hash h = true.
Proof.
  unfold commit_pattern. intro H.
  apply lit_some in H. destruct H as [r1 [_ H]].
  apply greedy_plus_some in H. destruct H as [g [r2 H]].
  apply exactly_some in H. destruct H as [g' [r3 [Hl [Hg H]]]].
  injection H as <-. unfold is_hash. now rewrite Hl, Hg.
Qed.

Lemma flush_keys (p : parser) :
  keys (flush p)
  = match current_hash p, current_data p with
    | Some h, Some _ =>
        if String.eqb h EmptyString then keys (commits p)
        else add_key (keys (commits p)) h
    | _, _ => keys (commits p)
    end.
Proof.
  unfold flush. destruct (current_hash p) as [h|]; [|reflexivity].
  destruct (current_data p) as [d|]; [|reflexivity].
  destruct (String.eqb h EmptyString); [reflexivity|].
  apply dict_set_keys.
Qed.

Lemma parse_line_keys (p : parser) (l : string) :
  keys (flush (parse_line p l))
  = match commit_pattern l with
    | Some h => add_key (keys (flush p)) h
    | None => keys (flush p)
    end.
Proof.
  rewrite (flush_keys (parse_line p l)). unfold parse_line.
  destruct (commit_pattern l) as [h|] eqn:E.
  - cbn [current_hash current_data commits].
    pose proof (hash_not_empty h (commit_pattern_hash l h E)) as N.
    apply String.eqb_neq in N. now rewrite N.
  - rewrite (flush_keys p). destruct p as [D [h|] [d|] st];
      cbn [current_hash current_data commits state]; try reflexivity.
    destruct st; [| |reflexivity].
    + destruct (author_pattern l) as [[g1 g2]|]; [reflexivity|].
      destruct (date_pattern l); reflexivity.
    + destruct (diff_start_pattern l); reflexivity.
Qed.

Lemma parse_lines_keys (lines : list string) (p : parser) :
  keys (flush (parse_lines p lines))
  = fold_left add_key (markers lines) (keys (flush p)).
Proof.
  revert p. induction lines as [|l ls IH]; intro p; [reflexivity|].
  rewrite parse_lines_cons, IH, parse_line_keys.
  unfold markers. cbn [flat_map]. fold (markers ls).
  rewrite fold_left_app.
  destruct (commit_pattern l); reflexivity.
Qed.

Lemma add_key_nodup (ks : list string) (k : string) :
  NoDup ks -> NoDup (add_key ks k).
Proof.
  intro H. unfold add_key. destruct (in_dec string_dec k ks) as [I | I];
    [exact H|].
  apply NoDup_app; [exact H | repeat constructor; intros [] |].
  intros x Hx [<- | []]. contradiction.
Qed.

Lemma add_keys_nodup (hs ks : list string) :
  NoDup ks -> NoDup (fold_left add_key hs ks).
Proof.
  revert ks. induction hs as [|h hs IH]; intros ks H; [exact H|].
  cbn [fold_left]. apply IH. now apply add_key_nodup.
Qed.

Lemma add_keys_in (hs ks : list string) (k : string) :
  In k (fold_left add_key hs ks) -> In k ks \/ In k hs.
Proof.
  revert ks. induction hs as [|h hs IH]; intros ks H; [now left|].
  cbn [fold_left] in H. destruct (IH _ H) as [I | I].
  - unfold add_key in I. destruct (in_dec string_dec h ks); [now left|].
    apply in_app_or in I. destruct I as [I | [<- | []]];
      [now left | right; now left].
  - right. now right.
Qed.

Lemma add_keys_head (hs ks : list string) (k : string) :
  exists rest, fold_left add_key hs (k :: ks) = k :: rest.
Proof.
  revert ks. induction hs as [|h hs IH]; intro ks; [now exists ks|].
  cbn [fold_left]. unfold add_key at 2.
  destruct (in_dec string_dec h (k :: ks)); [apply IH|].
  cbn [app]. apply IH.
Qed.

Lemma markers_are_hashes (lines : list string) (h : string) :
  In h (markers lines) -> is_hash h = true.
Proof.
  unfold markers. rewrite in_flat_map. intros [l [_ H]].
  destruct (commit_pattern l) as [h'|] eqn:E; [|destruct H].
  destruct H as [<- | []]. now apply (commit_pattern_hash l).
Qed.

(** X11: for every text, the keys of the parsed mapping are the hashes of
    the revision markers of the text in the order of their first
    occurrence: the first key is the hash of the first marker, no key
    occurs twice, and every key is a hash of 40 hexadecimal digits. *)
Theorem parsed_keys_follow_the_text (log_output : string) :
  keys (parse_git_log_to_dict log_output)
  = first_occurrences (markers (splitlines log_output))
  /\ NoDup (keys (parse_git_log_to_dict log_output))
  /\ Forall (fun k => is_hash k = true) (keys (parse_git_log_to_dict log_output))
  /\ forall h hs, markers (splitlines log_output) = h :: hs ->
       exists rest, keys (parse_git_log_to_dict log_output) = h :: rest.
Proof.
  assert (E : keys (parse_git_log_to_dict log_output)
              = first_occurrences (markers (splitlines log_output))).
  { unfold parse_git_log_to_dict. now rewrite parse_lines_keys. }
  rewrite E. unfold first_occurrences. split; [reflexivity|]. split; [|split].
  - apply add_keys_nodup. constructor.
  - apply Forall_forall. intros k Hk. apply add_keys_in in Hk.
    destruct Hk as [[] | Hk]. now apply (markers_are_hashes _ k Hk).
  - intros h hs ->. cbn [fold_left]. apply add_keys_head.
Qed.

Lemma parsed_keys_follow_the_text_witness :
  exists rest,
    keys (parse_git_log_to_dict
            (_run_git_log_L calculate_git [(2, 2); (3, 6); (2, 2)]))
    = hash_2 :: rest.
Proof.
  apply (proj2 (proj2 (proj2 (parsed_keys_follow_the_text
           (_run_git_log_L calculate_git [(2, 2); (3, 6); (2, 2)]))))
           hash_2 [hash_3; hash_2]).
  vm_compute. reflexivity.
Defined.

(** ** The records of the parsed mapping *)

Lemma finish_data_sound (st : parser_state) (d : commit_data) :
  data_sound st d -> record_sound (finish_data d).
Proof.
  intros [Ha [Hh Hd]]. unfold record_sound, finish_data.
  cbn [author_name author_email date message diff].
  split; [apply strip_idem|]. split; [|exact Ha].
  intro N. destruct st; try (exfalso; apply Hd; [discriminate | exact N]).
  destruct (Hh eq_refl) as [-> ->]. split; reflexivity.
Qed.

Lemma flush_sound (p : parser) :
  parser_sound p ->
  forall entry, In entry (flush p) -> record_sound (snd entry).
Proof.
  intros [Hc Hd] entry. unfold flush.
  destruct (current_hash p) as [h|]; [|apply Hc].
  destruct (current_data p) as [d|]; [|apply Hc].
  destruct (String.eqb h EmptyString); [apply Hc|].
  intro H. apply dict_set_in in H. destruct H as [-> | H]; [|now apply Hc].
  cbn [snd]. apply (finish_data_sound (state p)). now apply Hd.
Qed.

Lemma parse_line_sound (p : parser) (l : string) :
  parser_sound p -> parser_sound (parse_line p l).
Proof.
  intro S. pose proof (flush_sound p S) as F. destruct S as [Hc Hd].
  unfold parse_line. destruct (commit_pattern l) as [h|].
  - split; cbn [commits current_data state]; [exact F|].
    intros d E. injection E as <-. unfold data_sound, new_data.
    cbn [data_author_name data_author_email data_date data_message data_diff].
    intuition congruence.
  - destruct p as [D [h|] [d|] st];
      cbn [current_hash current_data commits state] in *;
      try (split; assumption).
    pose proof (Hd d eq_refl) as Hs. unfold data_sound in Hs.
    destruct st;
      [ destruct (author_pattern l) as [[g1 g2]|];
        [| destruct (date_pattern l); [| split; assumption]]
      | destruct (diff_start_pattern l)
      | ];
      (split; cbn [commits current_data state]; [exact Hc|]);
      intros d' E; injection E as <-;
      unfold data_sound, set_author, set_date, append_diff, append_message;
      cbn [data_author_name data_author_email data_date data_message
           data_diff];
      intuition congruence.
Qed.

Lemma parse_lines_sound (lines : list string) (p : parser) :
  parser_sound p -> parser_sound (parse_lines p lines).
Proof.
  revert p. induction lines as [|l ls IH]; intros p S; [exact S|].
  rewrite parse_lines_cons. apply IH. now apply parse_line_sound.
Qed.

(** X12: for every text, every record of the parsed mapping has a message
    without spaces at its ends, has its author name and its author email
    both set or both missing, and has a date whenever it has a message or
    a diff: message and diff lines are collected only after a date line. *)
Theorem parsed_records_are_sound
        (log_output : string) (h : string) (r : commit_record) :
  In (h, r) (parse_git_log_to_dict log_output) ->
  strip (message r) = message r
  /\ (date r = None -> message r = EmptyString /\ diff r = EmptyString)
  /\ (author_name r = None <-> author_email r = None).
Proof.
  intro H. unfold parse_git_log_to_dict in H.
  apply (flush_sound _ (parse_lines_sound (splitlines log_output) parser_init
                          (conj (fun e (I : In e []) => match I with end)
                                (fun d (E : None = Some d) =>
                                   match E with eq_refl => I end)))
           (h, r) H).
Qed.

Lemma parsed_records_are_sound_witness :
  let r := mkRecord (Some "Test User") (Some "test@example.com")
                    (Some "Fri Jan 11 20:23:54 2026 +0100")
                    "Refactor body to use variable"
                    (join nl [ "diff --git a/math_utils.py b/math_utils.py";
                               "--- a/math_utils.py";
                               "+++ b/math_utils.py";
                               "@@ -6,1 +7,2 @@" ]) in
  In (hash_4, r)
     (parse_git_log_to_dict (get_git_history_body calculate_tree calculate_git
                                                  "calculate"))
  /\ strip (message r) = message r.
Proof.
  intro r.
  assert (H : In (hash_4, r)
                 (parse_git_log_to_dict
                    (get_git_history_body calculate_tree calculate_git
                                          "calculate")))
    by (vm_compute; left; reflexivity).
  split; [exact H|].
  exact (proj1 (parsed_records_are_sound _ hash_4 r H)).
Defined.

(** ** Well-formed histories *)

Lemma store_revisions (revs : list revision) (d : commits_dict) :
  fold_left (fun acc r => dict_set acc (rev_hash r) (record_of r)) revs d
  = fold_left (fun acc entry => dict_set acc (fst entry) (snd entry))
              (map (fun r => (rev_hash r, record_of r)) revs) d.
Proof.
  revert d. induction revs as [|r revs IH]; intro d; [reflexivity|].
  cbn [fold_left map fst snd]. apply IH.
Qed.

(** The message of a revision with a subject line alone. *)
Lemma subject_message (r : revision) (subject : string) :
  rev_message r = [subject] -> trimmed subject = true ->
  message (record_of r) = subject.
Proof.
  intros Hm T. destruct (trimmed_head subject T) as [c [s' [E Hc]]].
  destruct (trimmed_spec subject T) as [_ [_ Hr]].
  unfold record_of, message_block. rewrite Hm.
  cbn [message map app]. unfold indent.
  change (join nl [EmptyString; ("    " ++ subject)%string; EmptyString])
    with (String newline ("    " ++ (subject ++ nl)))%string.
  unfold strip.
  change (lstrip (String newline ("    " ++ (subject ++ nl))))
    with (lstrip (subject ++ nl)).
  rewrite E at 1. cbn [append lstrip]. rewrite Hc.
  change (String c (s' ++ nl)) with (String c s' ++ nl)%string.
  rewrite <- E. rewrite rstrip_app_spaces by reflexivity. exact Hr.
Qed.

(** X13: a well-formed history whose revisions have distinct hashes is
    parsed to one record per revision, in the order of the text: the
    record holds the name, the email and the date as printed, the diff
    lines joined by newlines, and the message lines joined and trimmed;
    for a revision with a subject line alone the message is the subject
    without its indentation. *)
Theorem well_formed_history_is_parsed
        (before : list string) (revs : list revision) :
  wf_history before revs = true ->
  NoDup (map rev_hash revs) ->
  parse_git_log_to_dict (history_text before revs)
  = map (fun r => (rev_hash r, record_of r)) revs
  /\ forall r subject,
       In r revs -> rev_message r = [subject] -> trimmed subject = true ->
       In (rev_hash r,
           mkRecord (Some (rev_name r)) (Some (rev_email r))
                    (Some (rev_date r)) subject
                    (join nl (diff_line (rev_diff_start r) :: rev_diff_rest r)))
          (parse_git_log_to_dict (history_text before revs)).
Proof.
  intros W N.
  assert (E : parse_git_log_to_dict (history_text before revs)
              = map (fun r => (rev_hash r, record_of r)) revs).
  { rewrite (parse_history_text before revs W). unfold dict_of.
    rewrite store_revisions.
    apply (store_distinct (map (fun r => (rev_hash r, record_of r)) revs) []).
    cbn [keys map app]. unfold keys. rewrite map_map. exact N. }
  split; [exact E|].
  intros r subject Hin Hm T. rewrite E. apply in_map_iff. exists r.
  split; [|exact Hin]. f_equal.
  rewrite <- (subject_message r subject Hm T). reflexivity.
Qed.

Lemma well_formed_history_is_parsed_witness :
  parse_git_log_to_dict
    (history_text [section_header 3 8] [plain_revision; docstring_revision])
  = [ (hash_4, record_of plain_revision);
      (hash_3, record_of docstring_revision) ].
Proof.
  apply (proj1 (well_formed_history_is_parsed
                  [section_header 3 8] [plain_revision; docstring_revision]
                  eq_refl
                  ltac:(repeat constructor; cbn; intuition discriminate))).
Defined.

(** ** Raised errors *)




(** X15: when the latest revision of each of the three histories is read
    without an error, [check_function_consistency] returns warnings
    exactly when the three timestamps are of one kind (all with an
    offset, or all without), and raises TypeError otherwise. *)
Theorem consistency_check_raises_on_mixed_timestamps
        (tree : node) (git_log_L : Z -> Z -> run_outcome)
        (strptime : string -> option datetime) (name : string)
        (date_sig date_doc date_body : datetime)
        (hash_sig hash_doc hash_body : string) :
  _get_latest_commit_info strptime
    (parse_git_log_to_dict (get_git_history_signature tree git_log_L name))
  = Ok (date_sig, hash_sig) ->
  _get_latest_commit_info strptime
    (parse_git_log_to_dict (get_git_history_docstring tree git_log_L name))
  = Ok (date_doc, hash_doc) ->
  _get_latest_commit_info strptime
    (parse_git_log_to_dict (get_git_history_body tree git_log_L name))
  = Ok (date_body, hash_body) ->
  (is_aware date_sig = is_aware date_doc
   /\ is_aware date_body = is_aware date_sig ->
   exists warnings,
     check_function_consistency tree git_log_L strptime name = Ok warnings)
  /\ (~ (is_aware date_sig = is_aware date_doc
         /\ is_aware date_body = is_aware date_sig) ->
      check_function_consistency tree git_log_L strptime name
      = Raise TypeError).
Proof.
  intros Hs Hd Hb.
  assert (E : check_function_consistency tree git_log_L strptime name
              = perform_checks date_sig hash_sig date_doc date_body).
  { unfold check_function_consistency. cbv zeta. now rewrite Hs, Hd, Hb. }
  rewrite E. split.
  - intros [K1 K2]. eexists. now apply perform_checks_same_kind.
  - intro K.
    destruct (Bool.bool_dec (is_aware date_sig) (is_aware date_doc)) as [K1 | K1].
    + assert (K2 : is_aware date_body <> is_aware date_sig) by tauto.
      unfold perform_checks.
      now rewrite (datetime_gt_mixed date_body date_sig K2).
    + now apply perform_checks_mixed.
Qed.

Lemma consistency_check_raises_on_mixed_timestamps_witness :
  check_function_consistency plain_tree plain_git strptime_git "h"
  = Raise TypeError.
Proof.
  apply (proj2 (consistency_check_raises_on_mixed_timestamps
                  plain_tree plain_git strptime_git "h"
                  (Aware 63903759831000000 3600000000) datetime_min
                  (Aware 63903759831000000 3600000000)
                  hash_1 EmptyString hash_1
                  ltac:(vm_compute; reflexivity)
                  ltac:(vm_compute; reflexivity)
                  ltac:(vm_compute; reflexivity))).
  cbn. intros [K _]. discriminate K.
Defined.

(** X16: for every name whose matching definitions have no docstring, a
    signature history whose latest date parses to a timestamp with an
    offset makes [check_function_consistency] raise TypeError, whatever
    the body history holds. *)
Theorem missing_docstring_raises
        (tree : node) (git_log_L : Z -> Z -> run_outcome)
        (strptime : string -> option datetime) (name : string)
        (wall utcoffset : Z) (hash_sig : string) :
  get_docstring_lines tree name = [] ->
  _get_latest_commit_info strptime
    (parse_git_log_to_dict (get_git_history_signature tree git_log_L name))
  = Ok (Aware wall utcoffset, hash_sig) ->
  check_function_consistency tree git_log_L strptime name = Raise TypeError.
Proof.
  intros Hdoc Hs. unfold check_function_consistency. cbv zeta.
  rewrite Hs. unfold get_git_history_docstring. rewrite Hdoc.
  cbn [_run_git_log_L]. rewrite parse_nothing_to_analyze.
  cbn [_get_latest_commit_info bind].
  destruct (_get_latest_commit_info strptime
              (parse_git_log_to_dict (get_git_history_body tree git_log_L name)))
    as [[date_body hash_body] | []]; cbn [bind]; [|reflexivity].
  apply perform_checks_mixed. discriminate.
Qed.

Lemma missing_docstring_raises_witness :
  check_function_consistency plain_tree plain_git strptime_git "h"
  = Raise TypeError.
Proof.
  apply (missing_docstring_raises plain_tree plain_git strptime_git "h"
           63903759831000000 3600000000 hash_1);
    vm_compute; reflexivity.
Defined.

(** ** A revision printed more than once *)

Lemma dict_set_in_other (d : commits_dict) (k : string) (v : commit_record)
      (h : string) (r : commit_record) :
  NoDup (keys d) ->
  In (h, r) (dict_set d k v) ->
  (h = k /\ r = v) \/ (h <> k /\ In (h, r) d).
Proof.
  unfold keys. induction d as [|[k' v'] d IH]; cbn [dict_set map fst].
  - intros _ [E | []]. injection E as <- <-. now left.
  - intro N. inversion N as [|x xs Hx Nd]; subst.
    destruct (String.eqb_spec k' k) as [-> | Hk].
    + intros [E | H]; [injection E as <- <-; now left|].
      right. split; [|now right].
      intros ->. apply Hx. apply (in_map fst) in H. exact H.
    + intros [E | H].
      * injection E as <- <-. right. split; [congruence | now left].
      * destruct (IH Nd H) as [L | [L1 L2]]; [now left|].
        right. split; [exact L1 | now right].
Qed.

Lemma dict_of_nodup (revs : list revision) : NoDup (keys (dict_of revs)).
Proof.
  apply (dict_of_invariant revs (fun _ => True)).
  - apply Forall_forall. auto.
  - constructor.
  - intros entry [].
Qed.

Lemma dict_of_last (revs : list revision) :
  forall h r, In (h, r) (dict_of revs) ->
  exists pre rev post,
    revs = pre ++ rev :: post /\ rev_hash rev = h /\ r = record_of rev
    /\ Forall (fun x => rev_hash x <> h) post.
Proof.
  induction revs as [|x revs IH] using rev_ind; intros h r H; [destruct H|].
  unfold dict_of in H. rewrite fold_left_app in H. cbn [fold_left] in H.
  fold (dict_of revs) in H.
  apply dict_set_in_other in H; [|apply dict_of_nodup].
  destruct H as [[-> ->] | [Hne H]].
  - exists revs, x, []. repeat split. constructor.
  - destruct (IH h r H) as [pre [rev [post [-> [Hh [Hr Hp]]]]]].
    exists pre, rev, (post ++ [x]). rewrite <- app_assoc. repeat split; auto.
    apply Forall_app. split; [exact Hp|]. constructor; [congruence | constructor].
Qed.

(** X17: in a well-formed history in which a revision is printed more
    than once, as in a batch whose ranges were changed by the same
    revision, the parsed mapping holds for each hash the record of the
    last printing: every entry is the record of a revision of the text
    after which no revision with the same hash follows. *)
Theorem repeated_revision_keeps_last_record
        (before : list string) (revs : list revision)
        (h : string) (r : commit_record) :
  wf_history before revs = true ->
  In (h, r) (parse_git_log_to_dict (history_text before revs)) ->
  exists pre rev post,
    revs = pre ++ rev :: post /\ rev_hash rev = h /\ r = record_of rev
    /\ Forall (fun x => rev_hash x <> h) post.
Proof.
  intros W H. rewrite (parse_history_text before revs W) in H.
  now apply dict_of_last.
Qed.

Lemma repeated_revision_keeps_last_record_witness :
  parse_git_log_to_dict
    (history_text [] [revert_revision; docstring_revision; plain_revision])
  = [ (hash_4, record_of plain_revision);
      (hash_3, record_of docstring_revision) ]
  /\ exists pre rev post,
       [revert_revision; docstring_revision; plain_revision]
       = pre ++ rev :: post
       /\ rev_hash rev = hash_4 /\ record_of plain_revision = record_of rev
       /\ Forall (fun x => rev_hash x <> hash_4) post.
Proof.
  split; [vm_compute; reflexivity|].
  apply (repeated_revision_keeps_last_record
           [] [revert_revision; docstring_revision; plain_revision]
           hash_4 (record_of plain_revision) eq_refl).
  vm_compute. left. reflexivity.
Defined.
